(** * Taxi Park Admin API: a shallow embedding of [api.py]

    The program is a FastAPI application over an SQLite database with two
    tables, [cars] and [drivers].  Every endpoint opens a connection with
    [get_db], runs a few parameterised statements and shapes the rows into
    response models.

    The embedding follows the source:
    - a table is the list of its rows in rowid order, the database adds the
      two [sqlite_sequence] counters that AUTOINCREMENT keeps;
    - a Python [float] and an SQLite REAL are both IEEE binary64, modelled by
      Rocq's primitive [float] with its own comparisons;
    - a [str] / TEXT value is the [string] of its UTF-8 bytes (SQLite compares
      TEXT with the BINARY collation, byte by byte);
    - a handler is a computation over the connection's working copy of the
      database that either returns or raises; [get_db] commits or rolls back;
    - the declared constraints of the request parameters ([Path], [Query],
      [Field]) are checked first and raise FastAPI's 422;
    - [CURRENT_TIMESTAMP] is an input of the statements that use it. *)

From Stdlib Require Import ZArith List String Bool Floats Lia.
From Stdlib Require Import Sorted Permutation DecimalString.
Import ListNotations.

Set Warnings "-inexact-float".
Local Open Scope string_scope.
Local Open Scope list_scope.
Local Open Scope Z_scope.

(** ** Rows and tables *)

(** [class CarStatus(str, Enum)], also the CHECK constraint of [cars.status]. *)
Inductive CarStatus : Type := FREE | BUSY | REPAIR.

Definition CarStatus_eqb (a b : CarStatus) : bool :=
  match a, b with
  | FREE, FREE | BUSY, BUSY | REPAIR, REPAIR => true
  | _, _ => false
  end.

(** [CarStatus.value]. *)
Definition value (s : CarStatus) : string :=
  match s with FREE => "FREE" | BUSY => "BUSY" | REPAIR => "REPAIR" end.

(** The text of a TIMESTAMP column. *)
Definition datetime : Type := string.

(** A row of [cars] (columns are written [c.id], [c.status], ... in the
    queries of the source). *)
Record Car : Type := mkCar {
  c_id : Z;
  c_status : CarStatus;
  c_license_plate : string;
  c_brand : string;
  c_color : string;
  c_distance : float;
  c_created_at : datetime
}.

(** A row of [drivers]; [car_id INTEGER UNIQUE] is nullable. *)
Record Driver : Type := mkDriver {
  d_id : Z;
  d_full_name : string;
  d_phone : string;
  d_rating : float;
  d_car_id : option Z;
  d_is_active : bool;
  d_created_at : datetime
}.

(** The database file: both tables in rowid order and the largest rowid
    AUTOINCREMENT has handed out for each ([sqlite_sequence]). *)
Record Database : Type := mkDatabase {
  cars : list Car;
  cars_seq : Z;
  drivers : list Driver;
  drivers_seq : Z
}.

(** The database right after the CREATE TABLE statements of [init_db]. *)
Definition empty_database : Database := mkDatabase [] 0 [] 0.

(** ** Exceptions and the connection monad *)

(** The constraints of the schema an INSERT or UPDATE of the source can hit. *)
Inductive Constraint : Type :=
| UNIQUE_cars_license_plate
| UNIQUE_drivers_phone
| UNIQUE_drivers_car_id
| CHECK_drivers_rating.

(** [str(e)] of the [sqlite3.IntegrityError] raised for a constraint. *)
Definition str (c : Constraint) : string :=
  match c with
  | UNIQUE_cars_license_plate => "UNIQUE constraint failed: cars.license_plate"
  | UNIQUE_drivers_phone => "UNIQUE constraint failed: drivers.phone"
  | UNIQUE_drivers_car_id => "UNIQUE constraint failed: drivers.car_id"
  | CHECK_drivers_rating => "CHECK constraint failed: rating >= 0 AND rating <= 5"
  end.

(** What a request can raise. *)
Inductive Exn : Type :=
| IntegrityError (c : Constraint)      (* sqlite3.IntegrityError *)
| HTTPException (status_code : Z) (detail : string)
| RequestValidationError               (* FastAPI: a parameter or the body breaks its declaration *)
| ValidationError                      (* pydantic: a response model built from a bad row *)
| TypeError.                           (* dict(None) *)

(** The status code the framework answers with. *)
Definition status_code (e : Exn) : Z :=
  match e with
  | HTTPException code _ => code
  | RequestValidationError => 422
  | IntegrityError _ | ValidationError | TypeError => 500
  end.

(** A computation on an open connection: a result or an exception, and the
    connection's view of the database afterwards. *)
Definition DB (A : Type) : Type := Database -> (Exn + A) * Database.

Definition ret {A} (a : A) : DB A := fun db => (inr a, db).

Definition raise {A} (e : Exn) : DB A := fun db => (inl e, db).

Definition bind {A B} (m : DB A) (k : A -> DB B) : DB B :=
  fun db =>
    match m db with
    | (inr a, db') => k a db'
    | (inl e, db') => (inl e, db')
    end.

Notation "x <- m ;; k" := (bind m (fun x => k))
  (at level 61, m at next level, right associativity).
Notation "m ;;; k" := (bind m (fun _ => k))
  (at level 61, right associativity).

(** [try: body / except sqlite3.IntegrityError as e: handler]. *)
Definition try_except_IntegrityError {A} (body : DB A) (handler : Constraint -> DB A) : DB A :=
  fun db =>
    match body db with
    | (inl (IntegrityError c), db') => handler c db'
    | r => r
    end.

(** [with get_db() as conn]: commit when the body returns, roll back to the
    database as it was when the body raises, and re-raise. *)
Definition get_db {A} (body : DB A) : DB A :=
  fun db =>
    match body db with
    | (inr a, conn) => (inr a, conn)
    | (inl e, _) => (inl e, db)
    end.

(** A read-only statement. *)
Definition fetch {A} (q : Database -> A) : DB A := fun db => (inr (q db), db).

(** [[f(x) for x in xs]] with an [f] that can raise. *)
Fixpoint for_each {A B} (f : A -> DB B) (xs : list A) : DB (list B) :=
  match xs with
  | [] => ret []
  | x :: xs' => y <- f x ;; ys <- for_each f xs' ;; ret (y :: ys)
  end.

(** [cursor.executemany]. *)
Fixpoint executemany {A B} (stmt : A -> DB B) (xs : list A) : DB unit :=
  match xs with
  | [] => ret tt
  | x :: xs' => stmt x ;;; executemany stmt xs'
  end.

(** ** Pydantic schemas *)

(** The bounds of [Field(..., gt=, ge=, le=)] on a float: Python's [>], [>=]
    and [<=], false on a NaN. *)
Definition gt (bound x : float) : bool := PrimFloat.ltb bound x.
Definition ge (bound x : float) : bool := PrimFloat.leb bound x.
Definition le (bound x : float) : bool := PrimFloat.leb x bound.

(** [class CarBase]: [distance: float = Field(..., gt=0)]. *)
Definition CarBase_distance_ok (distance : float) : bool := gt 0 distance.

(** [class DriverBase]: [rating: float = Field(5.0, ge=0, le=5)]. *)
Definition DriverBase_rating_ok (rating : float) : bool := ge 0 rating && le 5 rating.

(** [class CarCreate(CarBase)], after pydantic has filled the default
    [status = CarStatus.FREE] of an omitted field. *)
Module CarCreate.
Record t : Type := make {
  license_plate : string;
  brand : string;
  color : string;
  distance : float;
  status : CarStatus
}.
Definition valid (car : t) : bool := CarBase_distance_ok (distance car).
End CarCreate.

(** [class CarUpdate]: every field optional, [distance] with [gt=0]. *)
Module CarUpdate.
Record t : Type := make {
  status : option CarStatus;
  color : option string;
  distance : option float
}.
Definition valid (u : t) : bool :=
  match distance u with Some x => gt 0 x | None => true end.
(** The body [{}]. *)
Definition empty : t := make None None None.
End CarUpdate.

(** [class DriverCreate(DriverBase)], after the default [rating = 5.0]. *)
Module DriverCreate.
Record t : Type := make {
  full_name : string;
  phone : string;
  rating : float;
  car_id : option Z
}.
Definition valid (driver : t) : bool := DriverBase_rating_ok (rating driver).
End DriverCreate.

(** [class DriverUpdate]: every field optional, [rating] with [ge=0, le=5]. *)
Module DriverUpdate.
Record t : Type := make {
  full_name : option string;
  phone : option string;
  rating : option float;
  car_id : option Z;
  is_active : option bool
}.
Definition valid (u : t) : bool :=
  match rating u with Some x => ge 0 x && le 5 x | None => true end.
(** The body [{}]. *)
Definition empty : t := make None None None None None.
(** [driver_update.car_id = v], an assignment to the request object. *)
Definition set_car_id (u : t) (v : option Z) : t :=
  make (full_name u) (phone u) (rating u) v (is_active u).
End DriverUpdate.

(** [class CarOut(CarBase)] has the columns of a [cars] row and inherits the
    bound on [distance]; [CarOut( **dict(row))] raises when the row breaks it. *)
Definition CarOut : Type := Car.

Definition CarOut_of (row : Car) : DB CarOut :=
  if CarBase_distance_ok (c_distance row) then ret row else raise ValidationError.

(** [class DriverOut(DriverBase)] has the columns of a [drivers] row and
    inherits the bounds on [rating]. *)
Definition DriverOut : Type := Driver.

Definition DriverOut_of (row : Driver) : DB DriverOut :=
  if DriverBase_rating_ok (d_rating row) then ret row else raise ValidationError.

(** [class CarWithDriver(CarOut)]: [driver: Optional[DriverOut] = None]. *)
Record CarWithDriver : Type := mkCarWithDriver {
  cwd_car : CarOut;
  driver : option DriverOut
}.

(** [class DriverWithCar(DriverOut)]: [car: Optional[CarOut] = None]. *)
Record DriverWithCar : Type := mkDriverWithCar {
  dwc_driver : DriverOut;
  car : option CarOut
}.

(** ** Statements *)

(** The rowid AUTOINCREMENT gives a new row: one more than the largest rowid
    the table holds or has ever held. *)
Definition next_rowid (rowids : list Z) (seq : Z) : Z :=
  Z.max (fold_right Z.max 0 rowids) seq + 1.

(** [FROM l LEFT JOIN r ON on]: every row of [l] with each matching row of
    [r], or once with NULLs when none matches. *)
Definition left_join {A B} (on : A -> B -> bool) (l : list A) (r : list B) : list (A * option B) :=
  flat_map (fun a =>
              match filter (on a) r with
              | [] => [(a, None)]
              | ms => map (fun b => (a, Some b)) ms
              end) l.

(** [ORDER BY key]: an insertion sort, ascending. *)
Fixpoint insert_by {A} (key : A -> Z) (x : A) (l : list A) : list A :=
  match l with
  | [] => [x]
  | y :: l' => if key x <? key y then x :: l else y :: insert_by key x l'
  end.

Definition order_by {A} (key : A -> Z) (l : list A) : list A :=
  fold_right (insert_by key) [] l.

(** [LIMIT limit OFFSET offset] (both non-negative where the source uses them). *)
Definition limit_offset {A} (limit offset : Z) (l : list A) : list A :=
  firstn (Z.to_nat limit) (skipn (Z.to_nat offset) l).

(** [SELECT ... FROM cars WHERE id = ?] followed by [fetchone()]. *)
Definition select_car (car_id : Z) : DB (option Car) :=
  fetch (fun db => find (fun c => c_id c =? car_id) (cars db)).

(** [SELECT ... FROM drivers WHERE id = ?] followed by [fetchone()]. *)
Definition select_driver (driver_id : Z) : DB (option Driver) :=
  fetch (fun db => find (fun d => d_id d =? driver_id) (drivers db)).

(** [d.car_id = ?]: never true of a NULL. *)
Definition car_id_is (v : Z) (d : Driver) : bool :=
  match d_car_id d with Some w => w =? v | None => false end.

(** [INSERT INTO cars (status, license_plate, brand, color, distance)];
    the result is [cursor.lastrowid].  [license_plate] is UNIQUE. *)
Definition insert_car (now : datetime) (status : CarStatus)
    (license_plate brand color : string) (distance : float) : DB Z :=
  fun db =>
    if existsb (fun c => c_license_plate c =? license_plate)%string (cars db)
    then (inl (IntegrityError UNIQUE_cars_license_plate), db)
    else
      let rowid := next_rowid (map c_id (cars db)) (cars_seq db) in
      (inr rowid,
       mkDatabase
         (cars db ++ [mkCar rowid status license_plate brand color distance now])
         rowid (drivers db) (drivers_seq db)).

(** One [column = ?] of the SET list an update builds in [fields]/[params]. *)
Inductive CarField : Type :=
| status_eq (v : CarStatus)
| color_eq (v : string)
| distance_eq (v : float).

Definition set_CarField (c : Car) (f : CarField) : Car :=
  match f with
  | status_eq v =>
      mkCar (c_id c) v (c_license_plate c) (c_brand c) (c_color c) (c_distance c) (c_created_at c)
  | color_eq v =>
      mkCar (c_id c) (c_status c) (c_license_plate c) (c_brand c) v (c_distance c) (c_created_at c)
  | distance_eq v =>
      mkCar (c_id c) (c_status c) (c_license_plate c) (c_brand c) (c_color c) v (c_created_at c)
  end.

(** [UPDATE cars SET {fields} WHERE id = ?]; none of the three columns
    carries a constraint a value of its Python type can break. *)
Definition update_cars (fields : list CarField) (car_id : Z) : DB unit :=
  fun db =>
    (inr tt,
     mkDatabase
       (map (fun c => if c_id c =? car_id then fold_left set_CarField fields c else c) (cars db))
       (cars_seq db) (drivers db) (drivers_seq db)).

(** [INSERT INTO drivers (full_name, phone, rating, car_id)]; [is_active]
    takes its default 1.  SQLite checks the CHECK constraint first and then
    the UNIQUE indexes, the one of [car_id] before the one of [phone]; a NULL
    [car_id] collides with nothing.  The connection never enables foreign
    keys, so REFERENCES cars (id) is not enforced. *)
Definition insert_driver (now : datetime) (full_name phone : string)
    (rating : float) (car_id : option Z) : DB Z :=
  fun db =>
    if negb (DriverBase_rating_ok rating)
    then (inl (IntegrityError CHECK_drivers_rating), db)
    else if match car_id with
            | Some v => existsb (car_id_is v) (drivers db)
            | None => false
            end
    then (inl (IntegrityError UNIQUE_drivers_car_id), db)
    else if existsb (fun d => d_phone d =? phone)%string (drivers db)
    then (inl (IntegrityError UNIQUE_drivers_phone), db)
    else
      let rowid := next_rowid (map d_id (drivers db)) (drivers_seq db) in
      (inr rowid,
       mkDatabase (cars db) (cars_seq db)
         (drivers db ++ [mkDriver rowid full_name phone rating car_id true now])
         rowid).

(** One [column = ?] of the SET list [update_driver] builds.  The parameter
    of [car_id = ?] is always an [int]: the source appends it only when
    [driver_update.car_id is not None]. *)
Inductive DriverField : Type :=
| full_name_eq (v : string)
| phone_eq (v : string)
| rating_eq (v : float)
| car_id_eq (v : Z)
| is_active_eq (v : bool).

Definition set_DriverField (d : Driver) (f : DriverField) : Driver :=
  match f with
  | full_name_eq v =>
      mkDriver (d_id d) v (d_phone d) (d_rating d) (d_car_id d) (d_is_active d) (d_created_at d)
  | phone_eq v =>
      mkDriver (d_id d) (d_full_name d) v (d_rating d) (d_car_id d) (d_is_active d) (d_created_at d)
  | rating_eq v =>
      mkDriver (d_id d) (d_full_name d) (d_phone d) v (d_car_id d) (d_is_active d) (d_created_at d)
  | car_id_eq v =>
      mkDriver (d_id d) (d_full_name d) (d_phone d) (d_rating d) (Some v) (d_is_active d) (d_created_at d)
  | is_active_eq v =>
      mkDriver (d_id d) (d_full_name d) (d_phone d) (d_rating d) (d_car_id d) v (d_created_at d)
  end.

(** The table with [new] in the place of the row whose key is [id]. *)
Definition replace_row {A} (key : A -> Z) (id : Z) (new : A) (l : list A) : list A :=
  map (fun x => if key x =? id then new else x) l.

(** [UPDATE drivers SET {fields} WHERE id = ?]: the row with that primary
    key gets the new values unless they break a constraint against the other
    rows; the statement then changes nothing and raises. *)
Definition update_drivers (fields : list DriverField) (driver_id : Z) : DB unit :=
  fun db =>
    match find (fun d => d_id d =? driver_id) (drivers db) with
    | None => (inr tt, db)
    | Some old =>
        let new := fold_left set_DriverField fields old in
        let others := filter (fun d => negb (d_id d =? driver_id)) (drivers db) in
        if negb (DriverBase_rating_ok (d_rating new))
        then (inl (IntegrityError CHECK_drivers_rating), db)
        else if match d_car_id new with
                | Some v => existsb (car_id_is v) others
                | None => false
                end
        then (inl (IntegrityError UNIQUE_drivers_car_id), db)
        else if existsb (fun d => d_phone d =? d_phone new)%string others
        then (inl (IntegrityError UNIQUE_drivers_phone), db)
        else
          (inr tt,
           mkDatabase (cars db) (cars_seq db)
             (replace_row d_id driver_id new (drivers db))
             (drivers_seq db))
    end.

(** A SET entry that keeps [distance] above 0. *)
Definition distance_field_ok (f : CarField) : Prop :=
  match f with distance_eq v => CarBase_distance_ok v = true | _ => True end.

(** A SET entry that is not [car_id = ?]. *)
Definition not_car_id (f : DriverField) : Prop :=
  match f with car_id_eq _ => False | _ => True end.

(** ** Python helpers *)

(** [if x:] on an [Optional[int]]: false for [None] and for 0. *)
Definition truthy (x : option Z) : bool :=
  match x with Some v => negb (v =? 0) | None => false end.

(** [sub in s] on strings. *)
Definition contains (sub s : string) : bool :=
  match String.index 0 sub s with Some _ => true | None => false end.

(** [dict(row)] of a fetched row handed to a response model: [dict(None)]
    raises when nothing was fetched. *)
Definition from_row {A B} (model : A -> DB B) (row : option A) : DB B :=
  match row with Some r => model r | None => raise TypeError end.

(** The entry a present field of an update adds to [fields]. *)
Definition field_of {A F} (column : A -> F) (v : option A) : list F :=
  match v with Some x => [column x] | None => [] end.

(** The [detail] texts of the source. *)
Definition car_not_found : string := "Автомобиль не найден".
Definition plate_exists : string := "Автомобиль с таким госномером уже существует".
Definition driver_not_found : string := "Водитель не найден".
Definition car_id_missing : string := "Автомобиль с таким id не существует".
Definition car_missing : string := "Автомобиль не существует".
Definition car_taken : string := "Автомобиль уже назначен другому водителю".
Definition phone_exists : string := "Водитель с таким номером телефона уже существует".
Definition integrity_error : string := "Ошибка целостности данных".
Definition uniqueness_broken : string :=
  "Нарушение уникальности (возможно, телефон уже используется)".

(** ** Endpoints *)

(** The block [get_car] and [get_cars] apply to a joined row: split it into
    the car and the driver columns and build [CarWithDriver]. *)
Definition car_with_driver (row : Car * option Driver) : DB CarWithDriver :=
  let (c, joined) := row in
  let driver_data :=
    match joined with
    | Some d =>
        if truthy (Some (d_id d))
        then Some (mkDriver (d_id d) (d_full_name d) (d_phone d) (d_rating d)
                     (Some (c_id c)) (d_is_active d) (d_created_at d))
        else None
    | None => None
    end in
  car_obj <- CarOut_of c ;;
  match driver_data with
  | Some data => drv <- DriverOut_of data ;; ret (mkCarWithDriver car_obj (Some drv))
  | None => ret (mkCarWithDriver car_obj None)
  end.

(** The same block of [get_drivers] and [get_driver]. *)
Definition driver_with_car (row : Driver * option Car) : DB DriverWithCar :=
  let (d, joined) := row in
  let car_data :=
    match joined with
    | Some c => if truthy (Some (c_id c)) then Some c else None
    | None => None
    end in
  driver_obj <- DriverOut_of d ;;
  match car_data with
  | Some data => c <- CarOut_of data ;; ret (mkDriverWithCar driver_obj (Some c))
  | None => ret (mkDriverWithCar driver_obj None)
  end.

(** What the two blocks build when no model raises. *)
Definition CarWithDriver_of (row : Car * option Driver) : CarWithDriver :=
  mkCarWithDriver (fst row)
    match snd row with
    | Some d =>
        if truthy (Some (d_id d))
        then Some (mkDriver (d_id d) (d_full_name d) (d_phone d) (d_rating d)
                     (Some (c_id (fst row))) (d_is_active d) (d_created_at d))
        else None
    | None => None
    end.

Definition DriverWithCar_of (row : Driver * option Car) : DriverWithCar :=
  mkDriverWithCar (fst row)
    match snd row with
    | Some c => if truthy (Some (c_id c)) then Some c else None
    | None => None
    end.

(** [cars c LEFT JOIN drivers d ON d.car_id = c.id]. *)
Definition cars_join_drivers (db : Database) : list (Car * option Driver) :=
  left_join (fun c d => car_id_is (c_id c) d) (cars db) (drivers db).

(** [drivers d LEFT JOIN cars c ON d.car_id = c.id]. *)
Definition drivers_join_cars (db : Database) : list (Driver * option Car) :=
  left_join (fun d c => car_id_is (c_id c) d) (drivers db) (cars db).

(** GET /cars/in-repair *)
Definition get_cars_in_repair : DB (list CarOut) :=
  get_db (
    rows <- fetch (fun db => filter (fun c => CarStatus_eqb (c_status c) REPAIR) (cars db)) ;;
    for_each CarOut_of rows).

(** GET /cars/{car_id}, [car_id: int = Path(..., ge=1)] *)
Definition get_car (car_id : Z) : DB CarWithDriver :=
  if negb (1 <=? car_id) then raise RequestValidationError else
  get_db (
    row <- fetch (fun db => find (fun r => c_id (fst r) =? car_id) (cars_join_drivers db)) ;;
    match row with
    | None => raise (HTTPException 404 car_not_found)
    | Some r => car_with_driver r
    end).

(** The optional conditions [get_cars] appends to its WHERE clause. *)
Definition cars_where (status : option CarStatus) (min_distance max_distance : option float)
    (c : Car) : bool :=
  match status with Some s => CarStatus_eqb (c_status c) s | None => true end
  && match min_distance with Some m => PrimFloat.leb m (c_distance c) | None => true end
  && match max_distance with Some m => PrimFloat.leb (c_distance c) m | None => true end.

(** GET /cars, with [min_distance], [max_distance]: [Query(None, ge=0)],
    [limit: int = Query(100, ge=1, le=500)], [offset: int = Query(0, ge=0)]. *)
Definition get_cars (status : option CarStatus) (min_distance max_distance : option float)
    (limit offset : Z) : DB (list CarWithDriver) :=
  if negb (match min_distance with Some m => ge 0 m | None => true end
           && match max_distance with Some m => ge 0 m | None => true end
           && (1 <=? limit) && (limit <=? 500) && (0 <=? offset))
  then raise RequestValidationError else
  get_db (
    rows <- fetch (fun db =>
      limit_offset limit offset
        (order_by (fun r => c_id (fst r))
           (filter (fun r => cars_where status min_distance max_distance (fst r))
              (cars_join_drivers db)))) ;;
    for_each car_with_driver rows).

(** The defaults of [limit] and [offset]. *)
Definition default_limit : Z := 100.
Definition default_offset : Z := 0.

(** POST /cars *)
Definition create_car (now : datetime) (car : CarCreate.t) : DB CarOut :=
  if negb (CarCreate.valid car) then raise RequestValidationError else
  get_db (
    try_except_IntegrityError
      (car_id <- insert_car now (CarCreate.status car) (CarCreate.license_plate car)
                   (CarCreate.brand car) (CarCreate.color car) (CarCreate.distance car) ;;
       new_car <- select_car car_id ;;
       from_row CarOut_of new_car)
      (fun _ => raise (HTTPException 400 plate_exists))).

(** PATCH /cars/{car_id}, [car_id: int] *)
Definition update_car (car_id : Z) (car_update : CarUpdate.t) : DB CarOut :=
  if negb (CarUpdate.valid car_update) then raise RequestValidationError else
  get_db (
    found <- select_car car_id ;;
    match found with
    | None => raise (HTTPException 404 car_not_found)
    | Some _ =>
        let fields :=
          field_of status_eq (CarUpdate.status car_update)
          ++ field_of color_eq (CarUpdate.color car_update)
          ++ field_of distance_eq (CarUpdate.distance car_update) in
        match fields with
        | [] => row <- select_car car_id ;; from_row CarOut_of row
        | _ =>
            update_cars fields car_id ;;;
            updated <- select_car car_id ;;
            from_row CarOut_of updated
        end
    end).

(** The optional conditions [get_drivers] appends to its WHERE clause. *)
Definition drivers_where (min_rating : option float) (only_active : bool) (d : Driver) : bool :=
  match min_rating with Some m => PrimFloat.leb m (d_rating d) | None => true end
  && (if only_active then d_is_active d else true).

(** GET /drivers, with [min_rating: Query(None, ge=0, le=5)],
    [only_active: bool = Query(True)] and the same [limit] and [offset]. *)
Definition get_drivers (min_rating : option float) (only_active : bool)
    (limit offset : Z) : DB (list DriverWithCar) :=
  if negb (match min_rating with Some m => ge 0 m && le 5 m | None => true end
           && (1 <=? limit) && (limit <=? 500) && (0 <=? offset))
  then raise RequestValidationError else
  get_db (
    rows <- fetch (fun db =>
      limit_offset limit offset
        (order_by (fun r => d_id (fst r))
           (filter (fun r => drivers_where min_rating only_active (fst r))
              (drivers_join_cars db)))) ;;
    for_each driver_with_car rows).

(** GET /drivers/{driver_id}, [driver_id: int = Path(..., ge=1)] *)
Definition get_driver (driver_id : Z) : DB DriverWithCar :=
  if negb (1 <=? driver_id) then raise RequestValidationError else
  get_db (
    row <- fetch (fun db => find (fun r => d_id (fst r) =? driver_id) (drivers_join_cars db)) ;;
    match row with
    | None => raise (HTTPException 404 driver_not_found)
    | Some r => driver_with_car r
    end).

(** POST /drivers *)
Definition create_driver (now : datetime) (driver : DriverCreate.t) : DB DriverOut :=
  if negb (DriverCreate.valid driver) then raise RequestValidationError else
  get_db (
    (if truthy (DriverCreate.car_id driver) then
       match DriverCreate.car_id driver with
       | Some v =>
           found <- select_car v ;;
           match found with
           | None => raise (HTTPException 400 car_id_missing)
           | Some _ =>
               holder <- fetch (fun db => find (car_id_is v) (drivers db)) ;;
               match holder with
               | Some _ => raise (HTTPException 400 car_taken)
               | None => ret tt
               end
           end
       | None => ret tt
       end
     else ret tt) ;;;
    try_except_IntegrityError
      (driver_id <- insert_driver now (DriverCreate.full_name driver)
                      (DriverCreate.phone driver) (DriverCreate.rating driver)
                      (DriverCreate.car_id driver) ;;
       new_driver <- select_driver driver_id ;;
       from_row DriverOut_of new_driver)
      (fun e =>
         if contains "phone" (str e)
         then raise (HTTPException 400 phone_exists)
         else raise (HTTPException 400 integrity_error))).

(** The first block of [update_driver]: a [car_id] of 0 is replaced by
    [None] in the request object, any other one is checked; the request
    object as the rest of the handler sees it is returned. *)
Definition check_new_car (driver_id : Z) (driver_update : DriverUpdate.t) : DB DriverUpdate.t :=
  match DriverUpdate.car_id driver_update with
  | Some v =>
      if v =? 0 then ret (DriverUpdate.set_car_id driver_update None)
      else
        found <- select_car v ;;
        match found with
        | None => raise (HTTPException 400 car_missing)
        | Some _ =>
            holder <- fetch (fun db =>
              find (fun d => car_id_is v d && negb (d_id d =? driver_id)) (drivers db)) ;;
            match holder with
            | Some _ => raise (HTTPException 400 car_taken)
            | None => ret driver_update
            end
        end
  | None => ret driver_update
  end.

(** The [fields]/[params] lists [update_driver] builds. *)
Definition driver_fields (driver_update : DriverUpdate.t) : list DriverField :=
  field_of full_name_eq (DriverUpdate.full_name driver_update)
  ++ field_of phone_eq (DriverUpdate.phone driver_update)
  ++ field_of rating_eq (DriverUpdate.rating driver_update)
  ++ field_of car_id_eq (DriverUpdate.car_id driver_update)
  ++ field_of is_active_eq (DriverUpdate.is_active driver_update).

(** PATCH /drivers/{driver_id}, [driver_id: int] *)
Definition update_driver (driver_id : Z) (driver_update : DriverUpdate.t) : DB DriverOut :=
  if negb (DriverUpdate.valid driver_update) then raise RequestValidationError else
  get_db (
    found <- select_driver driver_id ;;
    match found with
    | None => raise (HTTPException 404 driver_not_found)
    | Some _ =>
        driver_update <- check_new_car driver_id driver_update ;;
        match driver_fields driver_update with
        | [] => row <- select_driver driver_id ;; from_row DriverOut_of row
        | fields =>
            try_except_IntegrityError
              (update_drivers fields driver_id)
              (fun _ => raise (HTTPException 400 uniqueness_broken)) ;;;
            updated <- select_driver driver_id ;;
            from_row DriverOut_of updated
        end
    end).

(** ** Bootstrap *)

(** The rows [init_db] inserts into an empty [cars] table. *)
Definition seed_cars : list (CarStatus * string * string * string * float) :=
  [ (FREE,   "А123БВ777", "Toyota",     "Белый",       5.3%float);
    (BUSY,   "В456ГД777", "Hyundai",    "Черный",      2.1%float);
    (REPAIR, "Е789ЖЗ777", "Kia",        "Серый",       8.7%float);
    (BUSY,   "И012КЛ777", "Skoda",      "Синий",       1.5%float);
    (FREE,   "М345НО777", "Volkswagen", "Красный",     4.2%float);
    (REPAIR, "П678РС777", "Renault",    "Белый",       6.8%float);
    (FREE,   "Т901УФ777", "Toyota",     "Серебристый", 3.4%float) ].

Definition seed_drivers : list (string * string * float * Z) :=
  [ ("Иванов Иван Иванович",         "+79001234567", 4.9%float, 1);
    ("Петров Петр Петрович",         "+79007654321", 4.7%float, 2);
    ("Сидоров Сидор Сидорович",      "+79005554433", 5.0%float, 4);
    ("Смирнов Алексей Владимирович", "+79004443322", 4.5%float, 5);
    ("Козлов Дмитрий Николаевич",    "+79003332211", 4.8%float, 7) ].

(** [init_db]: the tables exist in every [Database]; the seed rows go in
    when [cars] is empty. *)
Definition init_db (now : datetime) : DB unit :=
  get_db (
    cnt <- fetch (fun db => Z.of_nat (List.length (cars db))) ;;
    if cnt =? 0 then
      executemany
        (fun r => let '(status, license_plate, brand, color, distance) := r in
                  insert_car now status license_plate brand color distance)
        seed_cars ;;;
      executemany
        (fun r => let '(full_name, phone, rating, car_id) := r in
                  insert_driver now full_name phone rating (Some car_id))
        seed_drivers
    else ret tt).

(** The database of a fresh installation, started at [now]. *)
Definition fresh (now : datetime) : Database := snd (init_db now empty_database).

(** [ORDER BY rating ASC]: an insertion sort that keeps rows of equal rating
    in table order, the order a scan of [idx_drivers_rating] yields. *)
Fixpoint insert_by_rating (x : Driver) (l : list Driver) : list Driver :=
  match l with
  | [] => [x]
  | y :: l' =>
      if PrimFloat.leb (d_rating x) (d_rating y) then x :: l
      else y :: insert_by_rating x l'
  end.

Definition order_by_rating (l : list Driver) : list Driver :=
  fold_right insert_by_rating [] l.

(** [WHERE rating < ? AND is_active = 1]. *)
Definition low_rated (threshold : float) (d : Driver) : bool :=
  PrimFloat.ltb (d_rating d) threshold && d_is_active d.

(** GET /drivers/low-rating, [threshold: float = Query(4.0, ge=0, le=5)] *)
Definition get_drivers_low_rating (threshold : float) : DB (list DriverOut) :=
  if negb (ge 0 threshold && le 5 threshold) then raise RequestValidationError else
  get_db (
    rows <- fetch (fun db => order_by_rating (filter (low_rated threshold) (drivers db))) ;;
    for_each DriverOut_of rows).

(** ** Requests that write, and the states they reach *)

Inductive Request : Type :=
| POST_cars (now : datetime) (car : CarCreate.t)
| PATCH_cars (car_id : Z) (car_update : CarUpdate.t)
| POST_drivers (now : datetime) (driver : DriverCreate.t)
| PATCH_drivers (driver_id : Z) (driver_update : DriverUpdate.t).

(** The database after a request has been answered. *)
Definition serve (r : Request) (db : Database) : Database :=
  match r with
  | POST_cars now car => snd (create_car now car db)
  | PATCH_cars car_id car_update => snd (update_car car_id car_update db)
  | POST_drivers now driver => snd (create_driver now driver db)
  | PATCH_drivers driver_id driver_update => snd (update_driver driver_id driver_update db)
  end.

(** The states of a deployment: seeded once, then changed by requests only. *)
Inductive reachable : Database -> Prop :=
| reachable_fresh (now : datetime) : reachable (fresh now)
| reachable_serve (r : Request) (db : Database) : reachable db -> reachable (serve r db).

(** ** What the schema and the validators keep true *)

(** The values of the [car_id] column that are not NULL. *)
Definition assigned (ds : list Driver) : list Z :=
  flat_map (fun d => match d_car_id d with Some v => [v] | None => [] end) ds.

Record consistent (db : Database) : Prop := mk_consistent {
  (* INTEGER PRIMARY KEY AUTOINCREMENT, rows in rowid order *)
  cars_rowids : StronglySorted Z.lt (map c_id (cars db));
  cars_rowids_range : Forall (fun c => 1 <= c_id c <= cars_seq db) (cars db);
  (* license_plate TEXT UNIQUE *)
  cars_plates : NoDup (map c_license_plate (cars db));
  (* distance: Field(..., gt=0) on every write *)
  cars_distances : Forall (fun c => CarBase_distance_ok (c_distance c) = true) (cars db);
  drivers_rowids : StronglySorted Z.lt (map d_id (drivers db));
  drivers_rowids_range : Forall (fun d => 1 <= d_id d <= drivers_seq db) (drivers db);
  (* phone TEXT UNIQUE *)
  drivers_phones : NoDup (map d_phone (drivers db));
  (* car_id INTEGER UNIQUE *)
  drivers_car_ids : NoDup (assigned (drivers db));
  (* CHECK(rating >= 0 AND rating <= 5) *)
  drivers_ratings : Forall (fun d => DriverBase_rating_ok (d_rating d) = true) (drivers db)
}.

(** A computation that leaves a consistent database consistent, whether it
    returns or raises. *)
Definition keeps {A} (m : DB A) : Prop :=
  forall db, consistent db -> consistent (snd (m db)).

(** The same conditions as a test that computes. *)
Fixpoint increasing (l : list Z) : bool :=
  match l with
  | x :: l' => forallb (fun y => x <? y) l' && increasing l'
  | [] => true
  end.

Fixpoint distinct {A} (eqb : A -> A -> bool) (l : list A) : bool :=
  match l with
  | x :: l' => negb (existsb (eqb x) l') && distinct eqb l'
  | [] => true
  end.

Definition consistentb (db : Database) : bool :=
  increasing (map c_id (cars db))
  && forallb (fun c => (1 <=? c_id c) && (c_id c <=? cars_seq db)) (cars db)
  && distinct String.eqb (map c_license_plate (cars db))
  && forallb (fun c => CarBase_distance_ok (c_distance c)) (cars db)
  && increasing (map d_id (drivers db))
  && forallb (fun d => (1 <=? d_id d) && (d_id d <=? drivers_seq db)) (drivers db)
  && distinct String.eqb (map d_phone (drivers db))
  && distinct Z.eqb (assigned (drivers db))
  && forallb (fun d => DriverBase_rating_ok (d_rating d)) (drivers db).

(** ** Readings of the specification and inputs used below *)



(** The vehicles of a listing, without the driver each one carries. *)
Definition vehicles (l : list CarWithDriver) : list CarOut := map cwd_car l.



(** A deployment started at midnight. *)
Definition midnight : datetime := "2024-01-01 00:00:00".
Definition seeded : Database := fresh midnight.

(** The body [{"car_id": 0}] of a driver update. *)
Definition unassign : DriverUpdate.t := DriverUpdate.make None None None (Some 0) None.


(** A driver creation with the car reference 0. *)
Definition car_zero : DriverCreate.t :=
  DriverCreate.make "Новиков Олег" "+79000000000" 5%float (Some 0).

(** The [n]-th of a series of cars taken in for repair. *)
Definition taken_in (n : nat) : CarCreate.t :=
  CarCreate.make (NilZero.string_of_uint (Nat.to_uint n)) "Kia" "Серый" 1%float REPAIR.

(** The seeded database after [n] such cars have been created. *)
Definition workshop (n : nat) : Database :=
  fold_left (fun db k => serve (POST_cars midnight (taken_in k)) db) (seq 1 n) seeded.

(** The rows of the seeded database. *)
Definition toyota : Car := mkCar 1 FREE "А123БВ777" "Toyota" "Белый" 5.3%float midnight.
Definition seeded_cars : list Car :=
  [ toyota;
    mkCar 2 BUSY "В456ГД777" "Hyundai" "Черный" 2.1%float midnight;
    mkCar 3 REPAIR "Е789ЖЗ777" "Kia" "Серый" 8.7%float midnight;
    mkCar 4 BUSY "И012КЛ777" "Skoda" "Синий" 1.5%float midnight;
    mkCar 5 FREE "М345НО777" "Volkswagen" "Красный" 4.2%float midnight;
    mkCar 6 REPAIR "П678РС777" "Renault" "Белый" 6.8%float midnight;
    mkCar 7 FREE "Т901УФ777" "Toyota" "Серебристый" 3.4%float midnight ].

Definition ivanov : Driver :=
  mkDriver 1 "Иванов Иван Иванович" "+79001234567" 4.9%float (Some 1) true midnight.
Definition petrov : Driver :=
  mkDriver 2 "Петров Петр Петрович" "+79007654321" 4.7%float (Some 2) true midnight.
Definition seeded_drivers : list Driver :=
  [ ivanov; petrov;
    mkDriver 3 "Сидоров Сидор Сидорович" "+79005554433" 5.0%float (Some 4) true midnight;
    mkDriver 4 "Смирнов Алексей Владимирович" "+79004443322" 4.5%float (Some 5) true midnight;
    mkDriver 5 "Козлов Дмитрий Николаевич" "+79003332211" 4.8%float (Some 7) true midnight ].

(** A driver creation for the car with identifier 1. *)
Definition for_toyota : DriverCreate.t :=
  DriverCreate.make "Новиков Олег" "+79000000001" 5%float (Some 1).

(** The body [{"car_id": 1}] of a driver update. *)
Definition take_toyota : DriverUpdate.t := DriverUpdate.make None None None (Some 1) None.

(** The body [{"is_active": false}], and the seeded database after the
    first driver has been deactivated with it. *)
Definition deactivate : DriverUpdate.t := DriverUpdate.make None None None None (Some false).
Definition ivanov_inactive : Driver :=
  mkDriver 1 "Иванов Иван Иванович" "+79001234567" 4.9%float (Some 1) false midnight.
Definition off_duty : Database := serve (PATCH_drivers 1 deactivate) seeded.

(** ** Further notions used in the statements below *)

(** Every reference to a car is NULL, the number 0, or the identifier of a
    row of [cars]. *)
Definition referential (db : Database) : Prop :=
  forall d v, In d (drivers db) -> d_car_id d = Some v ->
    v = 0 \/ exists c, In c (cars db) /\ c_id c = v.

(** A car row with the supplied fields of an update in place. *)
Definition patched_car (u : CarUpdate.t) (c : Car) : Car :=
  mkCar (c_id c)
    (match CarUpdate.status u with Some v => v | None => c_status c end)
    (c_license_plate c) (c_brand c)
    (match CarUpdate.color u with Some v => v | None => c_color c end)
    (match CarUpdate.distance u with Some v => v | None => c_distance c end)
    (c_created_at c).

(** A driver row with the supplied fields of an update in place; the car
    reference changes only to a number other than 0. *)
Definition patched_driver (u : DriverUpdate.t) (d : Driver) : Driver :=
  mkDriver (d_id d)
    (match DriverUpdate.full_name u with Some v => v | None => d_full_name d end)
    (match DriverUpdate.phone u with Some v => v | None => d_phone d end)
    (match DriverUpdate.rating u with Some v => v | None => d_rating d end)
    (match DriverUpdate.car_id u with
     | Some v => if v =? 0 then d_car_id d else Some v
     | None => d_car_id d
     end)
    (match DriverUpdate.is_active u with Some v => v | None => d_is_active d end)
    (d_created_at d).

(** The driver a car detail shows for a car: the row that references it,
    with [car_id] read from the car. *)
Definition driver_of (db : Database) (c : Car) : option Driver :=
  match find (car_id_is (c_id c)) (drivers db) with
  | Some d =>
      Some (mkDriver (d_id d) (d_full_name d) (d_phone d) (d_rating d)
              (Some (c_id c)) (d_is_active d) (d_created_at d))
  | None => None
  end.

(** The car a driver detail shows for a driver: the row its [car_id] names. *)
Definition car_of (db : Database) (d : Driver) : option Car :=
  find (fun c => car_id_is (c_id c) d) (cars db).

(** A computation that keeps a property of the database, whether it
    returns or raises. *)
Definition preserves {A} (I : Database -> Prop) (m : DB A) : Prop :=
  forall db, I db -> I (snd (m db)).

(** A computation that leaves the database as it is, whether it returns or
    raises. *)
Definition read_only {A} (m : DB A) : Prop := forall db, snd (m db) = db.

(** The response of a request, next to [serve]. *)
Definition failed (r : Request) (db : Database) : bool :=
  match r with
  | POST_cars now car =>
      match fst (create_car now car db) with inl _ => true | inr _ => false end
  | PATCH_cars car_id car_update =>
      match fst (update_car car_id car_update db) with inl _ => true | inr _ => false end
  | POST_drivers now driver =>
      match fst (create_driver now driver db) with inl _ => true | inr _ => false end
  | PATCH_drivers driver_id driver_update =>
      match fst (update_driver driver_id driver_update db) with
      | inl _ => true
      | inr _ => false
      end
  end.

(** * Properties *)

(** ** Lists *)

Lemma find_absent {A} (f : A -> bool) (l : list A) :
  (forall x, In x l -> f x = false) -> find f l = None.
Proof.
  induction l as [|a l IH]; intros H; simpl; [reflexivity|].
  rewrite (H a (or_introl eq_refl)). apply IH. intros x Hx. apply H. now right.
Qed.

Lemma find_present {A} (f : A -> bool) (l : list A) (x : A) :
  In x l -> f x = true -> exists y, find f l = Some y.
Proof.
  induction l as [|a l IH]; simpl; intros Hin Hf; [contradiction|].
  destruct (f a) eqn:Ha; [now exists a|].
  destruct Hin as [->|Hin]; [congruence|]. now apply IH.
Qed.

Lemma find_app_last {A} (f : A -> bool) (l : list A) (x : A) :
  (forall y, In y l -> f y = false) -> f x = true -> find f (l ++ [x]) = Some x.
Proof.
  induction l as [|a l IH]; simpl; intros Hl Hx.
  - now rewrite Hx.
  - rewrite (Hl a (or_introl eq_refl)). apply IH; auto.
Qed.

Lemma existsb_false {A} (f : A -> bool) (l : list A) :
  existsb f l = false <-> forall x, In x l -> f x = false.
Proof.
  split.
  - intros H x Hx. destruct (f x) eqn:E; [|reflexivity].
    rewrite <- H. symmetry. apply existsb_exists. now exists x.
  - intros H. destruct (existsb f l) eqn:E; [|reflexivity].
    apply existsb_exists in E as (x & Hx & Hf). rewrite (H x Hx) in Hf. discriminate.
Qed.

(** A key that identifies the rows of a table finds each of them. *)
Lemma find_by_key {A} (key : A -> Z) (l : list A) (x : A) :
  NoDup (map key l) -> In x l -> find (fun y => key y =? key x) l = Some x.
Proof.
  induction l as [|a l IH]; simpl; intros Hnd Hin; [contradiction|].
  inversion Hnd as [|? ? Hnotin Hnd']; subst.
  destruct Hin as [->|Hin]; [now rewrite Z.eqb_refl|].
  destruct (key a =? key x) eqn:E; [|now apply IH].
  apply Z.eqb_eq in E. exfalso. apply Hnotin. rewrite E. now apply in_map.
Qed.

Lemma StronglySorted_lt_NoDup (l : list Z) : StronglySorted Z.lt l -> NoDup l.
Proof.
  induction 1 as [|a l Hs IH Hall]; constructor; [|exact IH].
  intros Hin. rewrite Forall_forall in Hall. specialize (Hall a Hin). lia.
Qed.

(** ** The connection *)

(** Whatever the body does, a request that raises leaves the database as it
    found it. *)
Lemma get_db_rollback {A} (body : DB A) (db : Database) (e : Exn) :
  fst (get_db body db) = inl e -> snd (get_db body db) = db.
Proof.
  unfold get_db. destruct (body db) as [[e'|a] conn]; simpl; [reflexivity|discriminate].
Qed.

(** ** Validation of identifiers *)

Lemma select_car_nonpositive (db : Database) (car_id : Z) :
  consistent db -> car_id <= 0 -> find (fun c => c_id c =? car_id) (cars db) = None.
Proof.
  intros Hc Hle. apply find_absent. intros c Hin.
  pose proof (cars_rowids_range db Hc) as Hr. rewrite Forall_forall in Hr.
  specialize (Hr c Hin). apply Z.eqb_neq. lia.
Qed.

Lemma select_driver_nonpositive (db : Database) (driver_id : Z) :
  consistent db -> driver_id <= 0 -> find (fun d => d_id d =? driver_id) (drivers db) = None.
Proof.
  intros Hc Hle. apply find_absent. intros d Hin.
  pose proof (drivers_rowids_range db Hc) as Hr. rewrite Forall_forall in Hr.
  specialize (Hr d Hin). apply Z.eqb_neq. lia.
Qed.

(** The two detail endpoints declare [Path(..., ge=1)]: a non-positive
    identifier is answered with 422 and the database is not consulted. *)
Lemma get_car_nonpositive (db : Database) (car_id : Z) :
  car_id <= 0 -> get_car car_id db = (inl RequestValidationError, db).
Proof.
  intros H. unfold get_car. replace (1 <=? car_id) with false by (symmetry; apply Z.leb_gt; lia).
  reflexivity.
Qed.

Lemma get_driver_nonpositive (db : Database) (driver_id : Z) :
  driver_id <= 0 -> get_driver driver_id db = (inl RequestValidationError, db).
Proof.
  intros H. unfold get_driver.
  replace (1 <=? driver_id) with false by (symmetry; apply Z.leb_gt; lia).
  reflexivity.
Qed.

(** ** The computed test implies the invariant *)

Lemma increasing_sound (l : list Z) : increasing l = true -> StronglySorted Z.lt l.
Proof.
  induction l as [|a l IH]; simpl; intros H; constructor.
  - apply IH. now apply andb_prop in H.
  - apply andb_prop in H as [H _]. rewrite forallb_forall in H.
    apply Forall_forall. intros y Hy. apply Z.ltb_lt. now apply H.
Qed.

Lemma distinct_sound {A} (eqb : A -> A -> bool) (l : list A) :
  (forall x y, eqb x y = true <-> x = y) -> distinct eqb l = true -> NoDup l.
Proof.
  intros Heqb. induction l as [|a l IH]; simpl; intros H; constructor.
  - apply andb_prop in H as [H _]. apply negb_true_iff in H.
    intros Hin. rewrite existsb_false in H. specialize (H a Hin).
    assert (eqb a a = true) by now apply Heqb. congruence.
  - apply IH. now apply andb_prop in H.
Qed.

Lemma consistentb_sound (db : Database) : consistentb db = true -> consistent db.
Proof.
  unfold consistentb. intros H.
  apply andb_prop in H as [H H9]. apply andb_prop in H as [H H8].
  apply andb_prop in H as [H H7]. apply andb_prop in H as [H H6].
  apply andb_prop in H as [H H5]. apply andb_prop in H as [H H4].
  apply andb_prop in H as [H H3]. apply andb_prop in H as [H1 H2].
  rewrite forallb_forall in H2, H4, H6, H9.
  constructor.
  - now apply increasing_sound.
  - apply Forall_forall. intros c Hc.
    specialize (H2 c Hc). apply andb_prop in H2 as [F1 F2].
    apply Z.leb_le in F1, F2. lia.
  - apply (distinct_sound String.eqb); [apply String.eqb_eq | assumption].
  - apply Forall_forall. intros c Hc. now apply H4.
  - now apply increasing_sound.
  - apply Forall_forall. intros d Hd.
    specialize (H6 d Hd). apply andb_prop in H6 as [F1 F2].
    apply Z.leb_le in F1, F2. lia.
  - apply (distinct_sound String.eqb); [apply String.eqb_eq | assumption].
  - apply (distinct_sound Z.eqb); [apply Z.eqb_eq | assumption].
  - apply Forall_forall. intros d Hd. now apply H9.
Qed.

(** [init_db] on a new file seeds a consistent database. *)
Lemma fresh_consistent (now : datetime) : consistent (fresh now).
Proof. apply consistentb_sound. vm_compute. reflexivity. Qed.

(** The seeded database, row by row. *)
Lemma seeded_tables : seeded = mkDatabase seeded_cars 7 seeded_drivers 5.
Proof. vm_compute. reflexivity. Qed.

Lemma seeded_consistent : consistent seeded.
Proof. apply fresh_consistent. Qed.

(** ** PATCH with a non-positive identifier *)

(** C4.  The specification asks for 422 before any store access from every operation
    that takes a path identifier.  [update_car] and [update_driver] declare a
    bare [int]: on a consistent database a zero or negative identifier goes
    through the SELECT and is answered 404, where [get_car] and [get_driver]
    answer 422 (lemmas [get_car_nonpositive], [get_driver_nonpositive]). *)
Theorem update_nonpositive_id_is_not_found (db : Database) (id : Z) :
  consistent db -> id <= 0 ->
  (forall car_update, CarUpdate.valid car_update = true ->
     update_car id car_update db = (inl (HTTPException 404 car_not_found), db)) /\
  (forall driver_update, DriverUpdate.valid driver_update = true ->
     update_driver id driver_update db = (inl (HTTPException 404 driver_not_found), db)).
Proof.
  intros Hc Hid. split.
  - intros u Hu. unfold update_car. rewrite Hu. simpl.
    unfold get_db, bind, select_car, fetch.
    now rewrite (select_car_nonpositive db id Hc Hid).
  - intros u Hu. unfold update_driver. rewrite Hu. simpl.
    unfold get_db, bind, select_driver, fetch.
    now rewrite (select_driver_nonpositive db id Hc Hid).
Qed.

Lemma update_nonpositive_id_is_not_found_witness :
  update_car 0 CarUpdate.empty seeded = (inl (HTTPException 404 car_not_found), seeded) /\
  update_driver 0 DriverUpdate.empty seeded = (inl (HTTPException 404 driver_not_found), seeded) /\
  status_code (HTTPException 404 car_not_found) <> 422.
Proof.
  destruct (update_nonpositive_id_is_not_found seeded 0) as [Hcar Hdriver].
  - exact seeded_consistent.
  - lia.
  - split; [apply Hcar; reflexivity|].
    split; [apply Hdriver; reflexivity|].
    simpl. lia.
Defined.

(** ** Duplicate license plate *)

(** C3.  When some vehicle already carries the plate of a valid creation
    request, the request is answered 400 "plate exists" and the database,
    the [cars] table with it, is the one the request found. *)
Theorem create_car_duplicate_plate (now : datetime) (car : CarCreate.t)
    (db : Database) (c : Car) :
  In c (cars db) ->
  c_license_plate c = CarCreate.license_plate car ->
  CarCreate.valid car = true ->
  create_car now car db = (inl (HTTPException 400 plate_exists), db)
  /\ cars (snd (create_car now car db)) = cars db
  /\ List.length (cars (snd (create_car now car db))) = List.length (cars db).
Proof.
  intros Hin Hplate Hvalid.
  assert (create_car now car db = (inl (HTTPException 400 plate_exists), db)) as E.
  { unfold create_car. rewrite Hvalid. simpl.
    unfold get_db, try_except_IntegrityError, bind, insert_car.
    replace (existsb _ (cars db)) with true; [reflexivity|].
    symmetry. apply existsb_exists. exists c. split; [exact Hin|].
    now apply String.eqb_eq. }
  rewrite E. simpl. auto.
Qed.

Lemma create_car_duplicate_plate_witness :
  create_car midnight (CarCreate.make "Е789ЖЗ777" "Lada" "Белый" 0.5%float FREE) seeded
  = (inl (HTTPException 400 plate_exists), seeded)
  /\ List.length (cars seeded) = 7%nat.
Proof.
  split.
  - apply (create_car_duplicate_plate midnight
             (CarCreate.make "Е789ЖЗ777" "Lada" "Белый" 0.5%float FREE) seeded
             (mkCar 3 REPAIR "Е789ЖЗ777" "Kia" "Серый" 8.7%float midnight)).
    + vm_compute. right. right. left. reflexivity.
    + reflexivity.
    + reflexivity.
  - reflexivity.
Defined.

(** ** Ratings out of range *)




(** ** One driver per vehicle *)

Lemma key_injective {A} (key : A -> Z) (l : list A) (x y : A) :
  NoDup (map key l) -> In x l -> In y l -> key x = key y -> x = y.
Proof.
  intros Hnd Hx Hy E.
  pose proof (find_by_key key l x Hnd Hx) as Fx.
  pose proof (find_by_key key l y Hnd Hy) as Fy.
  rewrite E in Fx. congruence.
Qed.

Lemma in_assigned (l : list Driver) (d : Driver) (v : Z) :
  In d l -> d_car_id d = Some v -> In v (assigned l).
Proof.
  intros Hin Hv. unfold assigned. apply in_flat_map. exists d. split; [exact Hin|].
  rewrite Hv. now left.
Qed.

Lemma assigned_in (l : list Driver) (v : Z) :
  In v (assigned l) -> exists d, In d l /\ d_car_id d = Some v.
Proof.
  unfold assigned. intros H. apply in_flat_map in H as (d & Hd & Hv).
  exists d. split; [exact Hd|]. destruct (d_car_id d); simpl in Hv; [|contradiction].
  destruct Hv as [->|[]]. reflexivity.
Qed.

(** UNIQUE on [car_id]: two rows with the same reference are one row. *)
Lemma assigned_unique (l : list Driver) (a b : Driver) (v : Z) :
  NoDup (assigned l) -> In a l -> In b l ->
  d_car_id a = Some v -> d_car_id b = Some v -> a = b.
Proof.
  induction l as [|x l IH]; intros Hnd Ha Hb Hav Hbv; [contradiction|].
  assert (NoDup (assigned l)) as Hnd'.
  { change (assigned (x :: l))
      with ((match d_car_id x with Some w => [w] | None => [] end) ++ assigned l) in Hnd.
    now apply NoDup_app_remove_l in Hnd. }
  assert (forall y, In y l -> d_car_id y = Some v -> d_car_id x = Some v -> False) as Hclash.
  { intros y Hy Hyv Hxv.
    change (assigned (x :: l))
      with ((match d_car_id x with Some w => [w] | None => [] end) ++ assigned l) in Hnd.
    rewrite Hxv in Hnd. simpl in Hnd. inversion Hnd as [|? ? Hnotin _]; subst.
    apply Hnotin. now apply (in_assigned l y). }
  destruct Ha as [->|Ha], Hb as [->|Hb].
  - reflexivity.
  - exfalso. now apply (Hclash b).
  - exfalso. now apply (Hclash a).
  - now apply IH.
Qed.

(** The availability check of [create_driver]: a car that some driver row
    references, whatever else the row says, is refused. *)
Lemma create_driver_car_taken (now : datetime) (driver : DriverCreate.t)
    (db : Database) (holder : Driver) (c : Car) :
  DriverCreate.valid driver = true ->
  DriverCreate.car_id driver = Some (c_id c) ->
  c_id c <> 0 -> In c (cars db) ->
  In holder (drivers db) -> d_car_id holder = Some (c_id c) ->
  create_driver now driver db = (inl (HTTPException 400 car_taken), db).
Proof.
  intros Hvalid Hcar Hnz Hc Hh Hhv.
  unfold create_driver. rewrite Hvalid, Hcar. simpl.
  replace (c_id c =? 0) with false by (symmetry; now apply Z.eqb_neq). simpl.
  unfold get_db, bind, select_car, fetch.
  destruct (find_present (fun x => c_id x =? c_id c) (cars db) c Hc (Z.eqb_refl _))
    as [c' ->].
  destruct (find_present (car_id_is (c_id c)) (drivers db) holder Hh) as [h' ->].
  - unfold car_id_is. rewrite Hhv. apply Z.eqb_refl.
  - reflexivity.
Qed.

(** The availability check of [update_driver]: the same, for a holder other
    than the driver being updated. *)
Lemma update_driver_car_taken (driver_update : DriverUpdate.t)
    (db : Database) (holder target : Driver) (c : Car) :
  DriverUpdate.valid driver_update = true ->
  DriverUpdate.car_id driver_update = Some (c_id c) ->
  c_id c <> 0 -> In c (cars db) ->
  In target (drivers db) ->
  In holder (drivers db) -> d_car_id holder = Some (c_id c) ->
  d_id holder <> d_id target ->
  update_driver (d_id target) driver_update db = (inl (HTTPException 400 car_taken), db).
Proof.
  intros Hvalid Hcar Hnz Hc Ht Hh Hhv Hne.
  unfold update_driver. rewrite Hvalid. simpl.
  unfold get_db, bind, select_driver, fetch.
  destruct (find_present (fun x => d_id x =? d_id target) (drivers db) target Ht
              (Z.eqb_refl _)) as [t' ->].
  unfold check_new_car. rewrite Hcar.
  replace (c_id c =? 0) with false by (symmetry; now apply Z.eqb_neq).
  unfold bind, select_car, fetch.
  destruct (find_present (fun x => c_id x =? c_id c) (cars db) c Hc (Z.eqb_refl _))
    as [c' ->].
  destruct (find_present
              (fun d => car_id_is (c_id c) d && negb (d_id d =? d_id target))
              (drivers db) holder Hh) as [h' ->].
  - unfold car_id_is. rewrite Hhv, Z.eqb_refl. simpl.
    apply negb_true_iff. now apply Z.eqb_neq.
  - reflexivity.
Qed.

Lemma car_id_positive (db : Database) (c : Car) :
  consistent db -> In c (cars db) -> c_id c <> 0.
Proof.
  intros Hdb Hc. pose proof (cars_rowids_range db Hdb) as Hr.
  rewrite Forall_forall in Hr. specialize (Hr c Hc). lia.
Qed.

Lemma driver_id_injective (db : Database) (a b : Driver) :
  consistent db -> In a (drivers db) -> In b (drivers db) -> d_id a = d_id b -> a = b.
Proof.
  intros Hdb. apply key_injective, StronglySorted_lt_NoDup, (drivers_rowids db Hdb).
Qed.

(** C2.  In a consistent database where driver [A] references vehicle [c]:
    no other row references [c]; every valid creation of a driver for [c],
    and every valid update of another driver [B] to [c], is answered 400 "car
    taken", and the database, the row of [A] with it, stays as it was. *)
Theorem one_driver_per_vehicle (db : Database) (A : Driver) (c : Car) :
  consistent db -> In A (drivers db) -> In c (cars db) ->
  d_car_id A = Some (c_id c) ->
  (forall B, In B (drivers db) -> d_car_id B = Some (c_id c) -> B = A)
  /\ (forall now driver,
        DriverCreate.valid driver = true ->
        DriverCreate.car_id driver = Some (c_id c) ->
        create_driver now driver db = (inl (HTTPException 400 car_taken), db))
  /\ (forall B driver_update,
        In B (drivers db) -> B <> A ->
        DriverUpdate.valid driver_update = true ->
        DriverUpdate.car_id driver_update = Some (c_id c) ->
        update_driver (d_id B) driver_update db = (inl (HTTPException 400 car_taken), db)).
Proof.
  intros Hdb HA Hc HAc. pose proof (car_id_positive db c Hdb Hc) as Hnz.
  split; [|split].
  - intros B HB HBc. apply (assigned_unique (drivers db) B A (c_id c)); auto.
    apply (drivers_car_ids db Hdb).
  - intros now driver Hv Hcar. now apply (create_driver_car_taken now driver db A c).
  - intros B u HB Hne Hv Hcar.
    apply (update_driver_car_taken u db A B c); auto.
    intros E. apply Hne. symmetry. now apply (driver_id_injective db).
Qed.

Lemma one_driver_per_vehicle_witness :
  In ivanov (drivers seeded)
  /\ create_driver midnight for_toyota seeded = (inl (HTTPException 400 car_taken), seeded)
  /\ update_driver 2 take_toyota seeded = (inl (HTTPException 400 car_taken), seeded).
Proof.
  assert (In ivanov (drivers seeded)) as HA by (vm_compute; left; reflexivity).
  destruct (one_driver_per_vehicle seeded ivanov toyota) as (_ & Hcreate & Hupdate).
  - exact seeded_consistent.
  - exact HA.
  - vm_compute. left. reflexivity.
  - reflexivity.
  - split; [exact HA|]. split.
    + apply Hcreate; reflexivity.
    + apply (Hupdate petrov take_toyota).
      * vm_compute. right. left. reflexivity.
      * discriminate.
      * reflexivity.
      * reflexivity.
Defined.

(** C10.  The holder's [is_active] plays no part: with an inactive driver
    [A] on vehicle [c], creations and updates that would give [c] to another
    driver are answered with the same 400 "car taken". *)
Theorem inactive_holder_blocks_vehicle (db : Database) (A : Driver) (c : Car) :
  consistent db -> In A (drivers db) -> In c (cars db) ->
  d_car_id A = Some (c_id c) -> d_is_active A = false ->
  (forall now driver,
     DriverCreate.valid driver = true ->
     DriverCreate.car_id driver = Some (c_id c) ->
     create_driver now driver db = (inl (HTTPException 400 car_taken), db))
  /\ (forall B driver_update,
        In B (drivers db) -> B <> A ->
        DriverUpdate.valid driver_update = true ->
        DriverUpdate.car_id driver_update = Some (c_id c) ->
        update_driver (d_id B) driver_update db = (inl (HTTPException 400 car_taken), db)).
Proof.
  intros Hdb HA Hc HAc _. pose proof (car_id_positive db c Hdb Hc) as Hnz. split.
  - intros now driver Hv Hcar. now apply (create_driver_car_taken now driver db A c).
  - intros B u HB Hne Hv Hcar.
    apply (update_driver_car_taken u db A B c); auto.
    intros E. apply Hne. symmetry. now apply (driver_id_injective db).
Qed.

Lemma inactive_holder_blocks_vehicle_witness :
  In ivanov_inactive (drivers off_duty)
  /\ create_driver midnight for_toyota off_duty = (inl (HTTPException 400 car_taken), off_duty)
  /\ update_driver 2 take_toyota off_duty = (inl (HTTPException 400 car_taken), off_duty).
Proof.
  assert (In ivanov_inactive (drivers off_duty)) as HA by (vm_compute; left; reflexivity).
  destruct (inactive_holder_blocks_vehicle off_duty ivanov_inactive toyota)
    as (Hcreate & Hupdate).
  - apply consistentb_sound. vm_compute. reflexivity.
  - exact HA.
  - vm_compute. left. reflexivity.
  - reflexivity.
  - reflexivity.
  - split; [exact HA|]. split.
    + apply Hcreate; reflexivity.
    + apply (Hupdate petrov take_toyota).
      * vm_compute. right. left. reflexivity.
      * discriminate.
      * reflexivity.
      * reflexivity.
Defined.

(** ** AUTOINCREMENT *)

Lemma next_rowid_above (rowids : list Z) (seq x : Z) :
  In x rowids -> x < next_rowid rowids seq.
Proof.
  unfold next_rowid. induction rowids as [|a l IH]; simpl; intros Hin; [contradiction|].
  destruct Hin as [->|Hin]; [lia|]. specialize (IH Hin). lia.
Qed.

Lemma next_rowid_above_seq (rowids : list Z) (seq : Z) : seq < next_rowid rowids seq.
Proof. unfold next_rowid. lia. Qed.

Lemma next_rowid_positive (rowids : list Z) (seq : Z) : 1 <= next_rowid rowids seq.
Proof.
  unfold next_rowid.
  assert (0 <= fold_right Z.max 0 rowids) by (induction rowids; simpl; lia). lia.
Qed.

(** The row an INSERT has just added is the one its [lastrowid] selects. *)
Lemma select_inserted_driver (l : list Driver) (seq : Z) (row : Driver) :
  d_id row = next_rowid (map d_id l) seq ->
  find (fun d => d_id d =? next_rowid (map d_id l) seq) (l ++ [row]) = Some row.
Proof.
  intros E. apply find_app_last; [|rewrite E; apply Z.eqb_refl].
  intros y Hy. apply Z.eqb_neq.
  pose proof (next_rowid_above (map d_id l) seq (d_id y) (in_map d_id l y Hy)). lia.
Qed.

Lemma select_inserted_car (l : list Car) (seq : Z) (row : Car) :
  c_id row = next_rowid (map c_id l) seq ->
  find (fun c => c_id c =? next_rowid (map c_id l) seq) (l ++ [row]) = Some row.
Proof.
  intros E. apply find_app_last; [|rewrite E; apply Z.eqb_refl].
  intros y Hy. apply Z.eqb_neq.
  pose proof (next_rowid_above (map c_id l) seq (c_id y) (in_map c_id l y Hy)). lia.
Qed.

(** ** Creating a driver with the car reference 0 *)

(** C9.  For a valid creation whose [car_id] is 0 nothing is asked of the
    [cars] table.  With the phone unused and no row holding the reference 0,
    a row whose [car_id] is the number 0 is appended and returned; in a
    consistent database that reference names no vehicle.  With a row already
    holding 0, the failure comes from the UNIQUE index, as the generic
    integrity error, not from the availability check. *)
Theorem create_driver_with_car_id_zero (now : datetime) (driver : DriverCreate.t)
    (db : Database) :
  DriverCreate.valid driver = true ->
  DriverCreate.car_id driver = Some 0 ->
  ((forall d, In d (drivers db) -> d_car_id d <> Some 0) ->
   (forall d, In d (drivers db) -> d_phone d <> DriverCreate.phone driver) ->
   exists row,
     row = mkDriver (next_rowid (map d_id (drivers db)) (drivers_seq db))
             (DriverCreate.full_name driver) (DriverCreate.phone driver)
             (DriverCreate.rating driver) (Some 0) true now
     /\ create_driver now driver db
        = (inr row, mkDatabase (cars db) (cars_seq db) (drivers db ++ [row]) (d_id row))
     /\ (consistent db -> forall c, In c (cars db) -> Some (c_id c) <> d_car_id row))
  /\ ((exists d, In d (drivers db) /\ d_car_id d = Some 0) ->
      create_driver now driver db = (inl (HTTPException 400 integrity_error), db)).
Proof.
  intros Hvalid Hcar. split.
  - intros Hfree Hphone. eexists. split; [reflexivity|]. split.
    + unfold create_driver. rewrite Hvalid, Hcar. simpl.
      unfold get_db, try_except_IntegrityError, bind, ret, insert_driver.
      unfold DriverCreate.valid in Hvalid. rewrite Hvalid. simpl.
      replace (existsb (car_id_is 0) (drivers db)) with false.
      2:{ symmetry. apply existsb_false. intros d Hd. unfold car_id_is.
          destruct (d_car_id d) as [w|] eqn:E; [|reflexivity].
          apply Z.eqb_neq. intros ->. now apply (Hfree d Hd). }
      replace (existsb _ (drivers db)) with false.
      2:{ symmetry. apply existsb_false. intros d Hd. apply String.eqb_neq.
          now apply Hphone. }
      unfold select_driver, fetch. simpl.
      match goal with |- context [find _ (drivers db ++ [?r])] =>
        rewrite (select_inserted_driver (drivers db) (drivers_seq db) r eq_refl) end.
      unfold from_row, DriverOut_of. simpl. rewrite Hvalid. reflexivity.
    + intros Hdb c Hc. simpl. intros E. injection E as E.
      now apply (car_id_positive db c Hdb Hc).
  - intros (d & Hd & Hd0).
    unfold create_driver. rewrite Hvalid, Hcar. simpl.
    unfold get_db, try_except_IntegrityError, bind, ret, insert_driver.
    unfold DriverCreate.valid in Hvalid. rewrite Hvalid. simpl.
    replace (existsb (car_id_is 0) (drivers db)) with true; [reflexivity|].
    symmetry. apply existsb_exists. exists d. split; [exact Hd|].
    unfold car_id_is. now rewrite Hd0.
Qed.

Lemma create_driver_with_car_id_zero_witness :
  exists row,
    fst (create_driver midnight car_zero seeded) = inr row
    /\ d_id row = 6 /\ d_car_id row = Some 0
    /\ In row (drivers (snd (create_driver midnight car_zero seeded))).
Proof.
  destruct (create_driver_with_car_id_zero midnight car_zero seeded eq_refl eq_refl)
    as [Hok _].
  destruct Hok as (row & Hrow & Hcreate & _).
  - intros d Hd. rewrite seeded_tables in Hd. cbn [drivers seeded_drivers In] in Hd.
    repeat (destruct Hd as [<-|Hd]; [vm_compute; discriminate|]). contradiction.
  - intros d Hd. rewrite seeded_tables in Hd. cbn [drivers seeded_drivers In] in Hd.
    repeat (destruct Hd as [<-|Hd]; [vm_compute; discriminate|]). contradiction.
  - exists row. rewrite Hcreate. cbn [fst snd drivers]. split; [reflexivity|].
    split; [rewrite Hrow, seeded_tables; reflexivity|].
    split; [rewrite Hrow; reflexivity|].
    apply in_or_app. right. now left.
Defined.

(** ** Updating a driver with the car reference 0 *)

Lemma set_fields_id (fields : list DriverField) (d : Driver) :
  d_id (fold_left set_DriverField fields d) = d_id d.
Proof.
  revert d. induction fields as [|f fs IH]; intros d; simpl; [reflexivity|].
  rewrite IH. now destruct f.
Qed.

Lemma set_fields_car_id (fields : list DriverField) (d : Driver) :
  Forall not_car_id fields ->
  d_car_id (fold_left set_DriverField fields d) = d_car_id d.
Proof.
  revert d. induction fields as [|f fs IH]; intros d H; simpl; [reflexivity|].
  inversion H as [|? ? Hf Hfs]; subst. rewrite (IH _ Hfs).
  destruct f; simpl in *; try reflexivity. contradiction.
Qed.

Lemma driver_fields_unassigned (u : DriverUpdate.t) :
  Forall not_car_id (driver_fields (DriverUpdate.set_car_id u None)).
Proof.
  unfold driver_fields, DriverUpdate.set_car_id. simpl.
  destruct (DriverUpdate.full_name u), (DriverUpdate.phone u), (DriverUpdate.rating u),
    (DriverUpdate.is_active u); simpl; repeat constructor.
Qed.

Lemma find_replaced {A} (key : A -> Z) (id : Z) (l : list A) (old new : A) :
  find (fun x => key x =? id) l = Some old -> key new = id ->
  find (fun x => key x =? id) (replace_row key id new l) = Some new.
Proof.
  intros Hfind Hnew. unfold replace_row.
  induction l as [|a l IH]; simpl in *; [discriminate|].
  destruct (key a =? id) eqn:E.
  - simpl. rewrite Hnew, Z.eqb_refl. reflexivity.
  - simpl. rewrite E. now apply IH.
Qed.

(** C1.  The specification asks for the reference to be cleared.  [update_driver] replaces the
    0 by [None] in the request object and then builds its SET list from the
    fields that are not [None], so [car_id] is never written: whatever the
    driver's reference was, the returned record and the stored row still
    carry it, and the body [{"car_id": 0}] alone returns the row as it is. *)
Theorem update_driver_car_id_zero_keeps_reference (db : Database) (d : Driver)
    (driver_update : DriverUpdate.t) :
  consistent db -> In d (drivers db) ->
  DriverUpdate.car_id driver_update = Some 0 ->
  (forall out, fst (update_driver (d_id d) driver_update db) = inr out ->
     d_car_id out = d_car_id d)
  /\ (exists d',
        find (fun x => d_id x =? d_id d)
          (drivers (snd (update_driver (d_id d) driver_update db))) = Some d'
        /\ d_car_id d' = d_car_id d)
  /\ update_driver (d_id d) unassign db = (inr d, db).
Proof.
  intros Hdb Hd Hcar.
  assert (find (fun x => d_id x =? d_id d) (drivers db) = Some d) as Hfind.
  { apply find_by_key; [|exact Hd].
    apply StronglySorted_lt_NoDup, (drivers_rowids db Hdb). }
  assert (DriverBase_rating_ok (d_rating d) = true) as Hrating.
  { pose proof (drivers_ratings db Hdb) as H. rewrite Forall_forall in H. now apply H. }
  assert (forall u, DriverUpdate.car_id u = Some 0 ->
    (forall out, fst (update_driver (d_id d) u db) = inr out -> d_car_id out = d_car_id d)
    /\ (exists d',
        find (fun x => d_id x =? d_id d)
          (drivers (snd (update_driver (d_id d) u db))) = Some d'
        /\ d_car_id d' = d_car_id d)) as Hgen.
  { intros u Hu. unfold update_driver.
    destruct (DriverUpdate.valid u); cbn [negb].
    2:{ unfold raise. cbn [fst snd]. split; [discriminate|]. now exists d. }
    unfold get_db, bind, select_driver, fetch. rewrite Hfind.
    unfold check_new_car. rewrite Hu. cbn [Z.eqb]. unfold ret.
    pose proof (driver_fields_unassigned u) as Hnc.
    destruct (driver_fields (DriverUpdate.set_car_id u None)) as [|f fs] eqn:Hf.
    - rewrite Hfind. unfold from_row, DriverOut_of. rewrite Hrating. unfold ret.
      cbn [fst snd]. split; [intros out E; now inversion E | now exists d].
    - unfold try_except_IntegrityError, update_drivers. rewrite Hfind.
      set (new := fold_left set_DriverField (f :: fs) d).
      destruct (DriverBase_rating_ok (d_rating new)) eqn:Hr; cbn [negb].
      2:{ unfold raise. cbn [fst snd]. split; [discriminate|]. now exists d. }
      destruct (match d_car_id new with Some v => _ | None => false end).
      { unfold raise. cbn [fst snd]. split; [discriminate|]. now exists d. }
      destruct (existsb _ _).
      { unfold raise. cbn [fst snd]. split; [discriminate|]. now exists d. }
      cbn [drivers].
      rewrite (find_replaced d_id (d_id d) (drivers db) d new Hfind (set_fields_id _ _)).
      unfold from_row, DriverOut_of. rewrite Hr. unfold ret. cbn [fst snd drivers].
      rewrite (find_replaced d_id (d_id d) (drivers db) d new Hfind (set_fields_id _ _)).
      assert (d_car_id new = d_car_id d) as Hsame by now apply set_fields_car_id.
      split; [intros out E; now inversion E | now exists new]. }
  split; [apply (Hgen driver_update Hcar)|]. split; [apply (Hgen driver_update Hcar)|].
  unfold update_driver. cbn [DriverUpdate.valid unassign DriverUpdate.rating negb].
  unfold get_db, bind, select_driver, fetch. rewrite Hfind.
  unfold check_new_car. cbn. rewrite Hfind. unfold from_row, DriverOut_of.
  rewrite Hrating. reflexivity.
Qed.

Lemma update_driver_car_id_zero_keeps_reference_witness :
  update_driver 1 unassign seeded = (inr ivanov, seeded)
  /\ d_car_id ivanov = Some 1.
Proof.
  split; [|reflexivity].
  apply (update_driver_car_id_zero_keeps_reference seeded ivanov unassign).
  - exact seeded_consistent.
  - rewrite seeded_tables. now left.
  - reflexivity.
Defined.

(** ** Updates that supply no field *)

Lemma select_car_row (db : Database) (c : Car) :
  consistent db -> In c (cars db) ->
  find (fun x => c_id x =? c_id c) (cars db) = Some c.
Proof.
  intros Hdb Hc. apply find_by_key; [|exact Hc].
  apply StronglySorted_lt_NoDup, (cars_rowids db Hdb).
Qed.

Lemma select_driver_row (db : Database) (d : Driver) :
  consistent db -> In d (drivers db) ->
  find (fun x => d_id x =? d_id d) (drivers db) = Some d.
Proof.
  intros Hdb Hd. apply find_by_key; [|exact Hd].
  apply StronglySorted_lt_NoDup, (drivers_rowids db Hdb).
Qed.

Lemma car_distance_ok (db : Database) (c : Car) :
  consistent db -> In c (cars db) -> CarBase_distance_ok (c_distance c) = true.
Proof.
  intros Hdb Hc. pose proof (cars_distances db Hdb) as H.
  rewrite Forall_forall in H. now apply H.
Qed.

Lemma driver_rating_ok (db : Database) (d : Driver) :
  consistent db -> In d (drivers db) -> DriverBase_rating_ok (d_rating d) = true.
Proof.
  intros Hdb Hd. pose proof (drivers_ratings db Hdb) as H.
  rewrite Forall_forall in H. now apply H.
Qed.

(** C6.  On a consistent database the body [{}] sent to an existing vehicle
    or driver is answered with the stored row, field for field, and the
    database is the one the request found. *)
Theorem empty_update_returns_row (db : Database) (c : Car) (d : Driver) :
  consistent db -> In c (cars db) -> In d (drivers db) ->
  update_car (c_id c) CarUpdate.empty db = (inr c, db)
  /\ update_driver (d_id d) DriverUpdate.empty db = (inr d, db).
Proof.
  intros Hdb Hc Hd. split.
  - unfold update_car. cbn [CarUpdate.valid CarUpdate.empty CarUpdate.distance negb].
    unfold get_db, bind, select_car, fetch.
    rewrite (select_car_row db c Hdb Hc).
    cbn [CarUpdate.status CarUpdate.color CarUpdate.distance CarUpdate.empty field_of app].
    rewrite (select_car_row db c Hdb Hc).
    unfold from_row, CarOut_of. now rewrite (car_distance_ok db c Hdb Hc).
  - unfold update_driver.
    cbn [DriverUpdate.valid DriverUpdate.empty DriverUpdate.rating negb].
    unfold get_db, bind, select_driver, fetch.
    rewrite (select_driver_row db d Hdb Hd).
    unfold check_new_car, driver_fields, ret.
    cbn [DriverUpdate.full_name DriverUpdate.phone DriverUpdate.rating DriverUpdate.car_id
         DriverUpdate.is_active DriverUpdate.empty field_of app].
    rewrite (select_driver_row db d Hdb Hd).
    unfold from_row, DriverOut_of. now rewrite (driver_rating_ok db d Hdb Hd).
Qed.

Lemma empty_update_returns_row_witness :
  update_car 1 CarUpdate.empty seeded = (inr toyota, seeded)
  /\ update_driver 2 DriverUpdate.empty seeded = (inr petrov, seeded).
Proof.
  apply (empty_update_returns_row seeded toyota petrov).
  - exact seeded_consistent.
  - rewrite seeded_tables. now left.
  - rewrite seeded_tables. right. now left.
Defined.

(** ** The invariant is kept by every write *)

Lemma StronglySorted_snoc (l : list Z) (x : Z) :
  StronglySorted Z.lt l -> Forall (fun y => y < x) l -> StronglySorted Z.lt (l ++ [x]).
Proof.
  induction 1 as [|a l Hs IH Ha]; intros Hx; simpl.
  - repeat constructor.
  - inversion Hx as [|? ? Hax Hlx]; subst. constructor; [now apply IH|].
    apply Forall_app. split; [exact Ha|]. now repeat constructor.
Qed.

Lemma NoDup_snoc {A} (l : list A) (x : A) : NoDup l -> ~ In x l -> NoDup (l ++ [x]).
Proof.
  intros Hl Hx. apply NoDup_app; [exact Hl| repeat constructor; intros [] |].
  intros a Ha [<-|[]]. now apply Hx.
Qed.

Lemma NoDup_app_disjoint {A} (l1 l2 : list A) (b : A) :
  NoDup (l1 ++ l2) -> In b l1 -> In b l2 -> False.
Proof.
  induction l1 as [|a l1 IH]; simpl; intros Hnd H1 H2; [contradiction|].
  inversion Hnd as [|? ? Hnotin Hnd']; subst. destruct H1 as [->|H1].
  - apply Hnotin. apply in_or_app. now right.
  - now apply IH.
Qed.

Lemma flat_map_singleton {A B} (f : A -> B) (l : list A) :
  flat_map (fun x => [f x]) l = map f l.
Proof. induction l as [|a l IH]; simpl; [reflexivity|now rewrite IH]. Qed.

Lemma replace_row_absent {A} (key : A -> Z) (id : Z) (new : A) (l : list A) :
  (forall x, In x l -> key x <> id) -> replace_row key id new l = l.
Proof.
  unfold replace_row. induction l as [|a l IH]; simpl; intros H; [reflexivity|].
  replace (key a =? id) with false
    by (symmetry; apply Z.eqb_neq, H; now left).
  f_equal. apply IH. intros x Hx. apply H. now right.
Qed.

Lemma replace_row_keys {A} (key : A -> Z) (id : Z) (new : A) (l : list A) :
  key new = id -> map key (replace_row key id new l) = map key l.
Proof.
  intros Hnew. unfold replace_row. induction l as [|a l IH]; simpl; [reflexivity|].
  rewrite IH. f_equal. destruct (key a =? id) eqn:E; [|reflexivity].
  apply Z.eqb_eq in E. congruence.
Qed.

Lemma in_replace_row {A} (key : A -> Z) (id : Z) (new : A) (l : list A) (y : A) :
  In y (replace_row key id new l) -> y = new \/ (In y l /\ key y <> id).
Proof.
  unfold replace_row. intros H. apply in_map_iff in H as (x & Hx & Hin).
  destruct (key x =? id) eqn:E; [now left|].
  right. subst y. split; [exact Hin|]. now apply Z.eqb_neq.
Qed.

Lemma NoDup_flat_map_replace_row {A B} (key : A -> Z) (p : A -> list B)
    (id : Z) (new : A) (l : list A) :
  NoDup (map key l) -> NoDup (flat_map p l) -> NoDup (p new) ->
  (forall x, In x l -> key x <> id -> forall b, In b (p x) -> ~ In b (p new)) ->
  NoDup (flat_map p (replace_row key id new l)).
Proof.
  induction l as [|a l IH]; intros Hkeys Hnd Hnew Hfresh; [constructor|].
  inversion Hkeys as [|? ? Hnotin Hkeys']; subst.
  change (flat_map p (a :: l)) with (p a ++ flat_map p l) in Hnd.
  change (replace_row key id new (a :: l))
    with ((if key a =? id then new else a) :: replace_row key id new l).
  change (flat_map p (?x :: ?r)) with (p x ++ flat_map p r).
  destruct (key a =? id) eqn:E.
  - apply Z.eqb_eq in E. rewrite replace_row_absent.
    2:{ intros x Hx Hk. apply Hnotin. rewrite E, <- Hk. now apply in_map. }
    apply NoDup_app; [exact Hnew | now apply NoDup_app_remove_l in Hnd |].
    intros b Hb Hin. apply in_flat_map in Hin as (x & Hx & Hbx).
    apply (Hfresh x (or_intror Hx)) in Hbx; [now apply Hbx|].
    intros Hk. apply Hnotin. rewrite E, <- Hk. now apply in_map.
  - apply Z.eqb_neq in E. apply NoDup_app.
    + now apply NoDup_app_remove_r in Hnd.
    + apply IH; auto.
      * now apply NoDup_app_remove_l in Hnd.
      * intros x Hx. apply Hfresh. now right.
    + intros b Hb Hin. apply in_flat_map in Hin as (y & Hy & Hby).
      apply in_replace_row in Hy as [->|[Hy _]].
      * now apply (Hfresh a (or_introl eq_refl) E b Hb).
      * apply (NoDup_app_disjoint _ _ b Hnd Hb). apply in_flat_map. now exists y.
Qed.

(** INSERT INTO cars *)
Lemma insert_car_consistent (now : datetime) (status : CarStatus)
    (license_plate brand color : string) (distance : float) (db : Database) :
  consistent db -> CarBase_distance_ok distance = true ->
  consistent (snd (insert_car now status license_plate brand color distance db)).
Proof.
  intros Hdb Hdist. unfold insert_car.
  destruct (existsb _ (cars db)) eqn:Hplate; [exact Hdb|].
  rewrite existsb_false in Hplate. cbn [snd].
  set (rowid := next_rowid (map c_id (cars db)) (cars_seq db)).
  destruct Hdb as [H1 H2 H3 H4 H5 H6 H7 H8 H9].
  constructor; cbn [cars cars_seq drivers drivers_seq]; try assumption.
  - rewrite map_app. apply StronglySorted_snoc; [exact H1|].
    apply Forall_forall. intros y Hy. now apply next_rowid_above.
  - apply Forall_app. split.
    + apply (Forall_impl _ (P := fun c => 1 <= c_id c <= cars_seq db)); [|exact H2].
      intros c Hc. pose proof (next_rowid_above_seq (map c_id (cars db)) (cars_seq db)).
      fold rowid in H. lia.
    + repeat constructor; cbn [c_id];
        pose proof (next_rowid_positive (map c_id (cars db)) (cars_seq db));
        fold rowid in H; lia.
  - rewrite map_app. apply NoDup_snoc; [exact H3|]. cbn [c_license_plate].
    intros Hin. apply in_map_iff in Hin as (c & Hc & Hin).
    specialize (Hplate c Hin). apply String.eqb_neq in Hplate. congruence.
  - apply Forall_app. split; [exact H4|]. now repeat constructor.
Qed.

Lemma set_car_fields_id (fields : list CarField) (c : Car) :
  c_id (fold_left set_CarField fields c) = c_id c.
Proof.
  revert c. induction fields as [|f fs IH]; intros c; simpl; [reflexivity|].
  rewrite IH. now destruct f.
Qed.

Lemma set_car_fields_plate (fields : list CarField) (c : Car) :
  c_license_plate (fold_left set_CarField fields c) = c_license_plate c.
Proof.
  revert c. induction fields as [|f fs IH]; intros c; simpl; [reflexivity|].
  rewrite IH. now destruct f.
Qed.

Lemma set_car_fields_distance (fields : list CarField) (c : Car) :
  Forall distance_field_ok fields ->
  CarBase_distance_ok (c_distance c) = true ->
  CarBase_distance_ok (c_distance (fold_left set_CarField fields c)) = true.
Proof.
  revert c. induction fields as [|f fs IH]; intros c Hf Hc; simpl; [exact Hc|].
  inversion Hf as [|? ? Hf1 Hfs]; subst. apply IH; [exact Hfs|].
  destruct f; simpl in *; assumption.
Qed.

(** UPDATE cars *)
Lemma update_cars_consistent (fields : list CarField) (car_id : Z) (db : Database) :
  consistent db -> Forall distance_field_ok fields ->
  consistent (snd (update_cars fields car_id db)).
Proof.
  intros Hdb Hf. unfold update_cars. cbn [snd].
  destruct Hdb as [H1 H2 H3 H4 H5 H6 H7 H8 H9].
  set (f := fun c => if c_id c =? car_id then fold_left set_CarField fields c else c).
  assert (forall c, c_id (f c) = c_id c) as Hid.
  { intros c. unfold f. destruct (c_id c =? car_id); [apply set_car_fields_id|reflexivity]. }
  assert (forall c, c_license_plate (f c) = c_license_plate c) as Hpl.
  { intros c. unfold f. destruct (c_id c =? car_id); [apply set_car_fields_plate|reflexivity]. }
  constructor; cbn [cars cars_seq drivers drivers_seq]; try assumption.
  - rewrite map_map. erewrite map_ext; [exact H1|]. exact Hid.
  - apply Forall_map. apply (Forall_impl _ (P := fun c => 1 <= c_id c <= cars_seq db)); [|exact H2].
    intros c Hc. now rewrite Hid.
  - rewrite map_map. erewrite map_ext; [exact H3|]. exact Hpl.
  - apply Forall_map. apply (Forall_impl _ (P := fun c => CarBase_distance_ok (c_distance c) = true));
      [|exact H4].
    intros c Hc. unfold f. destruct (c_id c =? car_id); [|exact Hc].
    now apply set_car_fields_distance.
Qed.

(** INSERT INTO drivers *)
Lemma insert_driver_consistent (now : datetime) (full_name phone : string)
    (rating : float) (car_id : option Z) (db : Database) :
  consistent db ->
  consistent (snd (insert_driver now full_name phone rating car_id db)).
Proof.
  intros Hdb. unfold insert_driver.
  destruct (DriverBase_rating_ok rating) eqn:Hr; cbn [negb]; [|exact Hdb].
  destruct (match car_id with Some v => _ | None => false end) eqn:Hcar; [exact Hdb|].
  destruct (existsb _ (drivers db)) eqn:Hphone; [exact Hdb|].
  rewrite existsb_false in Hphone. cbn [snd].
  set (rowid := next_rowid (map d_id (drivers db)) (drivers_seq db)).
  destruct Hdb as [H1 H2 H3 H4 H5 H6 H7 H8 H9].
  constructor; cbn [cars cars_seq drivers drivers_seq]; try assumption.
  - rewrite map_app. apply StronglySorted_snoc; [exact H5|].
    apply Forall_forall. intros y Hy. now apply next_rowid_above.
  - apply Forall_app. split.
    + apply (Forall_impl _ (P := fun d => 1 <= d_id d <= drivers_seq db)); [|exact H6].
      intros d Hd. pose proof (next_rowid_above_seq (map d_id (drivers db)) (drivers_seq db)).
      fold rowid in H. lia.
    + repeat constructor; cbn [d_id];
        pose proof (next_rowid_positive (map d_id (drivers db)) (drivers_seq db));
        fold rowid in H; lia.
  - rewrite map_app. apply NoDup_snoc; [exact H7|]. cbn [d_phone].
    intros Hin. apply in_map_iff in Hin as (d & Hd & Hin).
    specialize (Hphone d Hin). apply String.eqb_neq in Hphone. congruence.
  - unfold assigned. rewrite flat_map_app. cbn [flat_map d_car_id app].
    destruct car_id as [v|]; rewrite app_nil_r; [|exact H8].
    apply NoDup_snoc; [exact H8|]. intros Hin.
    apply assigned_in in Hin as (d & Hd & Hv).
    rewrite existsb_false in Hcar. specialize (Hcar d Hd).
    unfold car_id_is in Hcar. rewrite Hv, Z.eqb_refl in Hcar. discriminate.
  - apply Forall_app. split; [exact H9|]. now repeat constructor.
Qed.

(** UPDATE drivers *)
Lemma update_drivers_consistent (fields : list DriverField) (driver_id : Z) (db : Database) :
  consistent db -> consistent (snd (update_drivers fields driver_id db)).
Proof.
  intros Hdb. unfold update_drivers.
  destruct (find _ (drivers db)) as [old|] eqn:Hfind; [|exact Hdb].
  set (new := fold_left set_DriverField fields old).
  destruct (DriverBase_rating_ok (d_rating new)) eqn:Hr; cbn [negb]; [|exact Hdb].
  destruct (match d_car_id new with Some v => _ | None => false end) eqn:Hcar; [exact Hdb|].
  destruct (existsb _ _) eqn:Hphone; [exact Hdb|].
  rewrite existsb_false in Hphone. cbn [snd].
  assert (d_id new = driver_id) as Hnew.
  { unfold new. rewrite set_fields_id. apply find_some in Hfind as [_ E].
    now apply Z.eqb_eq. }
  assert (forall x, In x (drivers db) -> d_id x <> driver_id ->
            In x (filter (fun d => negb (d_id d =? driver_id)) (drivers db))) as Hother.
  { intros x Hx Hne. apply filter_In. split; [exact Hx|].
    apply negb_true_iff. now apply Z.eqb_neq. }
  destruct Hdb as [H1 H2 H3 H4 H5 H6 H7 H8 H9].
  pose proof (StronglySorted_lt_NoDup _ H5) as Hkeys.
  constructor; cbn [cars cars_seq drivers drivers_seq]; try assumption.
  - rewrite replace_row_keys; assumption.
  - apply Forall_forall. intros y Hy. rewrite Forall_forall in H6.
    apply in_replace_row in Hy as [->|[Hy _]]; [|now apply H6].
    apply find_some in Hfind as [Hold E]. apply Z.eqb_eq in E.
    rewrite Hnew, <- E. now apply H6.
  - rewrite <- flat_map_singleton. apply NoDup_flat_map_replace_row.
    + exact Hkeys.
    + now rewrite flat_map_singleton.
    + repeat constructor. intros [].
    + intros x Hx Hne b [<-|[]] [E|[]].
      specialize (Hphone x (Hother x Hx Hne)). apply String.eqb_neq in Hphone. congruence.
  - unfold assigned. apply NoDup_flat_map_replace_row.
    + exact Hkeys.
    + exact H8.
    + destruct (d_car_id new); repeat constructor. intros [].
    + intros x Hx Hne b Hb Hin.
      destruct (d_car_id new) as [v|]; [|contradiction]. destruct Hin as [<-|[]].
      rewrite existsb_false in Hcar. specialize (Hcar x (Hother x Hx Hne)).
      unfold car_id_is in Hcar. destruct (d_car_id x) as [w|]; [|contradiction].
      destruct Hb as [<-|[]]. rewrite Z.eqb_refl in Hcar. discriminate.
  - apply Forall_forall. intros y Hy. rewrite Forall_forall in H9.
    apply in_replace_row in Hy as [->|[Hy _]]; [exact Hr|now apply H9].
Qed.

(** *** Computations that keep the invariant *)

Lemma keeps_ret {A} (a : A) : keeps (ret a).
Proof. intros db H. exact H. Qed.

Lemma keeps_raise {A} (e : Exn) : keeps (@raise A e).
Proof. intros db H. exact H. Qed.

Lemma keeps_fetch {A} (q : Database -> A) : keeps (fetch q).
Proof. intros db H. exact H. Qed.

Lemma keeps_bind {A B} (m : DB A) (k : A -> DB B) :
  keeps m -> (forall a, keeps (k a)) -> keeps (bind m k).
Proof.
  intros Hm Hk db H. unfold bind. specialize (Hm db H).
  destruct (m db) as [[e|a] db']; cbn [snd] in *; [exact Hm|]. now apply Hk.
Qed.

Lemma keeps_try_except {A} (body : DB A) (handler : Constraint -> DB A) :
  keeps body -> (forall c, keeps (handler c)) ->
  keeps (try_except_IntegrityError body handler).
Proof.
  intros Hb Hh db H. unfold try_except_IntegrityError. specialize (Hb db H).
  destruct (body db) as [[e|a] db']; cbn [snd] in *; [|exact Hb].
  destruct e; cbn [snd]; try exact Hb. now apply Hh.
Qed.

Lemma keeps_get_db {A} (body : DB A) : keeps body -> keeps (get_db body).
Proof.
  intros Hb db H. unfold get_db. specialize (Hb db H).
  destruct (body db) as [[e|a] db']; cbn [snd] in *; assumption.
Qed.

Lemma keeps_from_row {A B} (model : A -> DB B) (row : option A) :
  (forall r, keeps (model r)) -> keeps (from_row model row).
Proof. intros H. destruct row; [apply H|apply keeps_raise]. Qed.

Lemma keeps_CarOut_of (row : Car) : keeps (CarOut_of row).
Proof. unfold CarOut_of. destruct (CarBase_distance_ok _); [apply keeps_ret|apply keeps_raise]. Qed.

Lemma keeps_DriverOut_of (row : Driver) : keeps (DriverOut_of row).
Proof.
  unfold DriverOut_of. destruct (DriverBase_rating_ok _); [apply keeps_ret|apply keeps_raise].
Qed.

Create HintDb keeps.

#[local] Hint Resolve keeps_ret keeps_raise keeps_fetch keeps_CarOut_of
  keeps_DriverOut_of : keeps.

Ltac keeps_step :=
  first
    [ apply keeps_get_db
    | apply keeps_bind; [|intros ?]
    | apply keeps_try_except; [|intros ?]
    | apply keeps_from_row; intros ?
    | solve [auto with keeps]
    | match goal with |- keeps (match ?x with _ => _ end) => destruct x end
    | match goal with |- keeps (if ?x then _ else _) => destruct x end ].

Lemma create_car_keeps (now : datetime) (car : CarCreate.t) : keeps (create_car now car).
Proof.
  unfold create_car. destruct (CarCreate.valid car) eqn:Hvalid; cbn [negb];
    [|apply keeps_raise].
  repeat keeps_step; unfold select_car; auto with keeps.
  intros db Hdb. now apply insert_car_consistent.
Qed.

Lemma update_car_keeps (car_id : Z) (car_update : CarUpdate.t) :
  keeps (update_car car_id car_update).
Proof.
  unfold update_car. destruct (CarUpdate.valid car_update) eqn:Hvalid; cbn [negb];
    [|apply keeps_raise].
  apply keeps_get_db. apply keeps_bind; [apply keeps_fetch|]. intros [found|];
    [|apply keeps_raise].
  set (fields := _ ++ _).
  assert (Forall distance_field_ok fields) as Hfields.
  { unfold fields, CarUpdate.valid in *.
    destruct (CarUpdate.status car_update), (CarUpdate.color car_update),
      (CarUpdate.distance car_update); simpl; repeat constructor; assumption. }
  destruct fields as [|f fs].
  - unfold select_car. repeat keeps_step.
  - apply keeps_bind.
    + intros db Hdb. now apply update_cars_consistent.
    + intros _. unfold select_car. repeat keeps_step.
Qed.

Lemma check_new_car_keeps (driver_id : Z) (driver_update : DriverUpdate.t) :
  keeps (check_new_car driver_id driver_update).
Proof. unfold check_new_car, select_car. repeat keeps_step. Qed.

Lemma create_driver_keeps (now : datetime) (driver : DriverCreate.t) :
  keeps (create_driver now driver).
Proof.
  unfold create_driver. destruct (DriverCreate.valid driver); cbn [negb];
    [|apply keeps_raise].
  apply keeps_get_db. apply keeps_bind.
  - unfold select_car. repeat keeps_step.
  - intros _. apply keeps_try_except.
    + apply keeps_bind; [|intros ?; unfold select_driver; repeat keeps_step].
      intros db Hdb. now apply insert_driver_consistent.
    + intros c. repeat keeps_step.
Qed.

Lemma update_driver_keeps (driver_id : Z) (driver_update : DriverUpdate.t) :
  keeps (update_driver driver_id driver_update).
Proof.
  unfold update_driver. destruct (DriverUpdate.valid driver_update); cbn [negb];
    [|apply keeps_raise].
  apply keeps_get_db. apply keeps_bind; [apply keeps_fetch|]. intros [found|];
    [|apply keeps_raise].
  apply keeps_bind; [apply check_new_car_keeps|]. intros u.
  destruct (driver_fields u) as [|f fs].
  - unfold select_driver. repeat keeps_step.
  - apply keeps_bind.
    + apply keeps_try_except; [|intros ?; apply keeps_raise].
      intros db Hdb. now apply update_drivers_consistent.
    + intros _. unfold select_driver. repeat keeps_step.
Qed.

(** Every request leaves a consistent database consistent. *)
Lemma serve_consistent (r : Request) (db : Database) :
  consistent db -> consistent (serve r db).
Proof.
  destruct r; cbn [serve].
  - apply create_car_keeps.
  - apply update_car_keeps.
  - apply create_driver_keeps.
  - apply update_driver_keeps.
Qed.

(** The invariant holds in every state a deployment can be in. *)
Lemma reachable_consistent (db : Database) : reachable db -> consistent db.
Proof.
  induction 1 as [now|r db _ IH]; [apply fresh_consistent|now apply serve_consistent].
Qed.

(** ** Queries *)

Lemma in_firstn {A} (n : nat) (l : list A) (x : A) : In x (firstn n l) -> In x l.
Proof.
  revert l. induction n as [|n IH]; intros [|a l]; simpl; try contradiction.
  intros [->|H]; [now left|right; now apply IH].
Qed.

Lemma in_skipn {A} (n : nat) (l : list A) (x : A) : In x (skipn n l) -> In x l.
Proof.
  revert l. induction n as [|n IH]; intros [|a l]; simpl; try contradiction; auto.
Qed.

Lemma in_limit_offset {A} (limit offset : Z) (l : list A) (x : A) :
  In x (limit_offset limit offset l) -> In x l.
Proof. unfold limit_offset. intros H. now apply in_firstn, in_skipn in H. Qed.

Lemma limit_offset_map {A B} (f : A -> B) (limit offset : Z) (l : list A) :
  map f (limit_offset limit offset l) = limit_offset limit offset (map f l).
Proof. unfold limit_offset. now rewrite skipn_map, firstn_map. Qed.



Lemma StronglySorted_filter {A} (key : A -> Z) (f : A -> bool) (l : list A) :
  StronglySorted Z.lt (map key l) -> StronglySorted Z.lt (map key (filter f l)).
Proof.
  induction l as [|a l IH]; simpl; intros H; [constructor|].
  apply StronglySorted_inv in H as [Hs Ha]. destruct (f a); [|now apply IH].
  simpl. constructor; [now apply IH|].
  apply Forall_forall. intros y Hy. rewrite Forall_forall in Ha. apply Ha.
  apply in_map_iff in Hy as (x & <- & Hx). apply in_map. now apply filter_In in Hx.
Qed.

(** ORDER BY on rows that already come in ascending order of the key. *)
Lemma order_by_sorted {A} (key : A -> Z) (l : list A) :
  StronglySorted Z.lt (map key l) -> order_by key l = l.
Proof.
  induction l as [|a l IH]; simpl; intros H; [reflexivity|].
  apply StronglySorted_inv in H as [Hs Ha]. unfold order_by in *. simpl.
  rewrite (IH Hs). destruct l as [|b l]; simpl; [reflexivity|].
  inversion Ha as [|? ? Hab _]; subst. now apply Z.ltb_lt in Hab as ->.
Qed.

(** ORDER BY in general: the same rows, keys ascending. *)
Lemma insert_by_Permutation {A} (key : A -> Z) (x : A) (l : list A) :
  Permutation (insert_by key x l) (x :: l).
Proof.
  induction l as [|a l IH]; simpl; [reflexivity|].
  destruct (key x <? key a); [reflexivity|].
  rewrite IH. apply perm_swap.
Qed.

Lemma order_by_Permutation {A} (key : A -> Z) (l : list A) :
  Permutation (order_by key l) l.
Proof.
  unfold order_by. induction l as [|a l IH]; simpl; [reflexivity|].
  rewrite insert_by_Permutation. now constructor.
Qed.

Lemma insert_by_Sorted {A} (key : A -> Z) (x : A) (l : list A) :
  Sorted (fun a b => key a <= key b) l ->
  Sorted (fun a b => key a <= key b) (insert_by key x l).
Proof.
  induction 1 as [|a l Hs IH Hhd]; simpl; [repeat constructor|].
  destruct (key x <? key a) eqn:E.
  - apply Z.ltb_lt in E. repeat constructor; [assumption..|lia].
  - apply Z.ltb_ge in E. constructor; [exact IH|].
    destruct l as [|b l]; simpl; [now constructor|].
    inversion Hhd; subst. destruct (key x <? key b); now constructor.
Qed.

Lemma order_by_Sorted {A} (key : A -> Z) (l : list A) :
  Sorted (fun a b => key a <= key b) (order_by key l).
Proof.
  unfold order_by. induction l as [|a l IH]; simpl; [constructor|].
  now apply insert_by_Sorted.
Qed.

(** A join whose condition matches at most one row keeps the left table. *)
Lemma left_join_fst {A B} (on : A -> B -> bool) (l : list A) (r : list B) :
  (forall a, In a l -> (List.length (filter (on a) r) <= 1)%nat) ->
  map fst (left_join on l r) = l.
Proof.
  unfold left_join. induction l as [|a l IH]; intros H; [reflexivity|].
  cbn [flat_map]. rewrite map_app, IH by (intros x Hx; apply H; now right).
  specialize (H a (or_introl eq_refl)).
  destruct (filter (on a) r) as [|b [|b' ms]]; simpl in *; [reflexivity..|lia].
Qed.

Lemma in_left_join {A B} (on : A -> B -> bool) (l : list A) (r : list B)
    (a : A) (o : option B) :
  In (a, o) (left_join on l r) ->
  In a l /\ (forall b, o = Some b -> In b r /\ on a b = true).
Proof.
  unfold left_join. intros H. apply in_flat_map in H as (x & Hx & Hin).
  destruct (filter (on x) r) as [|m ms] eqn:E.
  - destruct Hin as [Hin|[]]. injection Hin as -> <-. split; [exact Hx|discriminate].
  - apply in_map_iff in Hin as (b & Hb & Hin). injection Hb as -> <-.
    split; [exact Hx|]. intros b' Hb'. injection Hb' as <-.
    rewrite <- E in Hin. now apply filter_In in Hin.
Qed.

Lemma filter_at_most_one {A} (f : A -> bool) (l : list A) :
  NoDup l -> (forall x y, In x l -> In y l -> f x = true -> f y = true -> x = y) ->
  (List.length (filter f l) <= 1)%nat.
Proof.
  induction l as [|a l IH]; simpl; intros Hnd Huniq; [lia|].
  inversion Hnd as [|? ? Hnotin Hnd']; subst.
  assert (List.length (filter f l) <= 1)%nat as Hl.
  { apply IH; [exact Hnd'|]. intros x y Hx Hy. apply Huniq; now right. }
  destruct (f a) eqn:Ha; [|exact Hl]. simpl.
  destruct (filter f l) as [|b ms] eqn:E; simpl; [lia|].
  exfalso. assert (In b (filter f l)) as Hb by (rewrite E; now left).
  apply filter_In in Hb as [Hb Hfb]. apply Hnotin.
  rewrite (Huniq a b); auto using in_eq, in_cons.
Qed.


Lemma cars_join_drivers_fst (db : Database) :
  consistent db -> map fst (cars_join_drivers db) = cars db.
Proof.
  intros Hdb. unfold cars_join_drivers. apply left_join_fst. intros c _.
  pose proof (StronglySorted_lt_NoDup _ (drivers_rowids db Hdb)) as Hkeys.
  apply filter_at_most_one; [now apply NoDup_map_inv in Hkeys|].
  intros x y Hx Hy Fx Fy.
  apply (assigned_unique (drivers db) x y (c_id c)); auto.
  - apply (drivers_car_ids db Hdb).
  - unfold car_id_is in Fx. destruct (d_car_id x); [|discriminate].
    apply Z.eqb_eq in Fx. now subst.
  - unfold car_id_is in Fy. destruct (d_car_id y); [|discriminate].
    apply Z.eqb_eq in Fy. now subst.
Qed.

(** A comprehension whose model accepts every row. *)
Lemma for_each_total {A B} (f : A -> DB B) (g : A -> B) (rows : list A) (db : Database) :
  (forall r, In r rows -> f r db = (inr (g r), db)) ->
  for_each f rows db = (inr (map g rows), db).
Proof.
  induction rows as [|r rows IH]; simpl; intros H; [reflexivity|].
  unfold bind. rewrite (H r (or_introl eq_refl)).
  rewrite IH by (intros x Hx; apply H; now right). reflexivity.
Qed.

Lemma driver_with_car_total (db : Database) (row : Driver * option Car) :
  DriverBase_rating_ok (d_rating (fst row)) = true ->
  (forall c, snd row = Some c -> CarBase_distance_ok (c_distance c) = true) ->
  driver_with_car row db = (inr (DriverWithCar_of row), db).
Proof.
  destruct row as [d o]. cbn [fst snd]. intros Hd Ho.
  unfold driver_with_car, DriverWithCar_of, bind, DriverOut_of, CarOut_of. cbn [fst snd].
  rewrite Hd. unfold ret. destruct o as [c|]; [|reflexivity].
  destruct (truthy (Some (c_id c))); [|reflexivity].
  now rewrite (Ho c eq_refl).
Qed.

Lemma car_with_driver_total (db : Database) (row : Car * option Driver) :
  CarBase_distance_ok (c_distance (fst row)) = true ->
  (forall d, snd row = Some d -> DriverBase_rating_ok (d_rating d) = true) ->
  car_with_driver row db = (inr (CarWithDriver_of row), db).
Proof.
  destruct row as [c o]. cbn [fst snd]. intros Hc Ho.
  unfold car_with_driver, CarWithDriver_of, bind, DriverOut_of, CarOut_of. cbn [fst snd].
  rewrite Hc. unfold ret. destruct o as [d|]; [|reflexivity].
  destruct (truthy (Some (d_id d))); [|reflexivity].
  cbn [d_rating]. now rewrite (Ho d eq_refl).
Qed.


(** The rows the car listing fetches, in a consistent database. *)
Lemma cars_page (db : Database) (f : Car -> bool) (limit offset : Z) :
  consistent db ->
  map fst (limit_offset limit offset
             (order_by (fun r => c_id (fst r))
                (filter (fun r => f (fst r)) (cars_join_drivers db))))
  = limit_offset limit offset (filter f (cars db)).
Proof.
  intros Hdb. rewrite order_by_sorted.
  - rewrite limit_offset_map. f_equal.
    rewrite <- (cars_join_drivers_fst db Hdb).
    symmetry. apply filter_map_swap.
  - apply (StronglySorted_filter (fun r => c_id (fst r))).
    rewrite <- (map_map fst c_id), (cars_join_drivers_fst db Hdb).
    apply (cars_rowids db Hdb).
Qed.

(** ** Listing drivers by rating and activity *)



(** ** Vehicles in repair, listed two ways *)

(** Both endpoints on a consistent database: the dedicated one returns every
    vehicle in repair, the listing the window of them. *)
Lemma repair_listings (db : Database) (limit offset : Z) :
  consistent db -> 1 <= limit <= 500 -> 0 <= offset ->
  exists l1,
    get_cars (Some REPAIR) None None limit offset db = (inr l1, db)
    /\ vehicles l1
       = limit_offset limit offset
           (filter (fun c => CarStatus_eqb (c_status c) REPAIR) (cars db))
    /\ get_cars_in_repair db
       = (inr (filter (fun c => CarStatus_eqb (c_status c) REPAIR) (cars db)), db).
Proof.
  intros Hdb Hlimit Hoffset.
  unfold get_cars.
  replace (1 <=? limit) with true by (symmetry; apply Z.leb_le; lia).
  replace (limit <=? 500) with true by (symmetry; apply Z.leb_le; lia).
  replace (0 <=? offset) with true by (symmetry; apply Z.leb_le; lia).
  cbn [andb negb]. unfold get_db, bind, fetch.
  set (rows := limit_offset _ _ _).
  assert (map fst rows
          = limit_offset limit offset
              (filter (fun c => CarStatus_eqb (c_status c) REPAIR) (cars db))) as Hrows.
  { unfold rows. rewrite (cars_page db (cars_where (Some REPAIR) None None)) by exact Hdb.
    f_equal. apply filter_ext. intros c. unfold cars_where.
    now rewrite !andb_true_r. }
  rewrite (for_each_total car_with_driver CarWithDriver_of rows db).
  2:{ intros [c o] Hrow. apply in_limit_offset in Hrow.
      apply (Permutation_in _ (order_by_Permutation _ _)) in Hrow.
      apply filter_In in Hrow as [Hrow _].
      apply in_left_join in Hrow as [Hc Ho].
      apply car_with_driver_total; cbn [fst snd].
      - now apply (car_distance_ok db).
      - intros d ->. destruct (Ho d eq_refl) as [Hd _]. now apply (driver_rating_ok db). }
  eexists. split; [reflexivity|]. split.
  - unfold vehicles. rewrite map_map. cbn [CarWithDriver_of cwd_car]. exact Hrows.
  - unfold get_cars_in_repair, get_db, bind, fetch.
    rewrite (for_each_total CarOut_of (fun c => c) _ db).
    + now rewrite map_id.
    + intros c Hc. apply filter_In in Hc as [Hc _]. unfold CarOut_of.
      now rewrite (car_distance_ok db c Hdb Hc).
Qed.

(** C7, as amended.  On a consistent database the listing with status REPAIR
    and the default [limit] 100 and [offset] 0 returns the first 100, by
    ascending identifier, of the vehicles the in-repair endpoint returns; the
    two sets are the same whenever at most 100 vehicles are in repair. *)
Theorem repair_listing_is_first_page (db : Database) :
  consistent db ->
  exists l1 l2,
    get_cars (Some REPAIR) None None default_limit default_offset db = (inr l1, db)
    /\ get_cars_in_repair db = (inr l2, db)
    /\ vehicles l1 = firstn 100 l2
    /\ ((List.length l2 <= 100)%nat -> forall c, In c (vehicles l1) <-> In c l2).
Proof.
  intros Hdb.
  destruct (repair_listings db default_limit default_offset Hdb) as (l1 & H1 & Hv & H2);
    [unfold default_limit; lia | unfold default_offset; lia |].
  exists l1. eexists. split; [exact H1|]. split; [exact H2|].
  rewrite Hv. unfold limit_offset, default_limit, default_offset. cbn [Z.to_nat skipn].
  change (Pos.to_nat 100) with 100%nat.
  split; [reflexivity|]. intros Hlen c. now rewrite firstn_all2.
Qed.

Lemma repair_listing_is_first_page_witness :
  exists l1 l2,
    get_cars (Some REPAIR) None None default_limit default_offset seeded = (inr l1, seeded)
    /\ get_cars_in_repair seeded = (inr l2, seeded)
    /\ vehicles l1 = firstn 100 l2
    /\ map c_id l2 = [3; 6].
Proof.
  destruct (repair_listing_is_first_page seeded seeded_consistent)
    as (l1 & l2 & H1 & H2 & Hv & _).
  exists l1, l2. split; [exact H1|]. split; [exact H2|]. split; [exact Hv|].
  assert (fst (get_cars_in_repair seeded) = inr l2) as E by now rewrite H2.
  rewrite seeded_tables in E.
  vm_compute in E. injection E as <-. reflexivity.
Defined.

Lemma workshop_reachable (n : nat) : reachable (workshop n).
Proof.
  unfold workshop. generalize (seq 1 n). intros l.
  assert (reachable seeded) as H by apply reachable_fresh.
  revert H. generalize seeded. induction l as [|k l IH]; intros db H; [exact H|].
  cbn [fold_left]. apply IH. now apply reachable_serve.
Qed.

(** The 101 cars taken in are in repair, after the two of the seed. *)
Lemma workshop_repairs :
  map c_id (filter (fun c => CarStatus_eqb (c_status c) REPAIR) (cars (workshop 101)))
  = 3 :: 6 :: map Z.of_nat (seq 8 101).
Proof. vm_compute. reflexivity. Qed.

Lemma workshop_last :
  nth_error (cars (workshop 101)) 107
  = Some (mkCar 108 REPAIR "101" "Kia" "Серый" 1%float midnight).
Proof. vm_compute. reflexivity. Qed.

Lemma workshop_first_page :
  forallb (fun id => id <? 108)
    (limit_offset default_limit default_offset (3 :: 6 :: map Z.of_nat (seq 8 101)))
  = true.
Proof. vm_compute. reflexivity. Qed.

(** C7, as the specification has it, fails in a reachable state: with 103
    vehicles in repair the in-repair endpoint returns the one with
    identifier 108, and the listing with the default pagination does not. *)
Lemma repair_listing_misses_a_car :
  exists l1 l2 c,
    get_cars (Some REPAIR) None None default_limit default_offset (workshop 101)
    = (inr l1, workshop 101)
    /\ get_cars_in_repair (workshop 101) = (inr l2, workshop 101)
    /\ c_id c = 108
    /\ In c l2 /\ ~ In c (vehicles l1).
Proof.
  pose proof (reachable_consistent _ (workshop_reachable 101)) as Hdb.
  destruct (repair_listings (workshop 101) default_limit default_offset Hdb)
    as (l1 & H1 & Hv & H2); [unfold default_limit; lia | unfold default_offset; lia |].
  exists l1, (filter (fun c => CarStatus_eqb (c_status c) REPAIR) (cars (workshop 101))).
  exists (mkCar 108 REPAIR "101" "Kia" "Серый" 1%float midnight).
  split; [exact H1|]. split; [exact H2|]. split; [reflexivity|]. split.
  - refine (proj2 (filter_In _ _ _) (conj _ eq_refl)).
    exact (nth_error_In _ 107 workshop_last).
  - rewrite Hv. intros Hin. apply (in_map c_id) in Hin.
    rewrite limit_offset_map, workshop_repairs in Hin.
    pose proof workshop_first_page as Hpage. rewrite forallb_forall in Hpage.
    specialize (Hpage _ Hin). discriminate Hpage.
Qed.


(** * Further properties *)

(** ** Reads and failed writes leave the database alone *)

Lemma read_only_ret {A} (a : A) : read_only (ret a).
Proof. intros db. reflexivity. Qed.

Lemma read_only_raise {A} (e : Exn) : read_only (@raise A e).
Proof. intros db. reflexivity. Qed.

Lemma read_only_fetch {A} (q : Database -> A) : read_only (fetch q).
Proof. intros db. reflexivity. Qed.

Lemma read_only_bind {A B} (m : DB A) (k : A -> DB B) :
  read_only m -> (forall a, read_only (k a)) -> read_only (bind m k).
Proof.
  intros Hm Hk db. unfold bind. specialize (Hm db).
  destruct (m db) as [[e|a] db']; cbn [snd] in *; [exact Hm|].
  subst db'. apply Hk.
Qed.

Lemma read_only_get_db {A} (body : DB A) : read_only body -> read_only (get_db body).
Proof.
  intros Hb db. unfold get_db. specialize (Hb db).
  destruct (body db) as [[e|a] conn]; cbn [snd] in *; [reflexivity|exact Hb].
Qed.

Lemma read_only_for_each {A B} (f : A -> DB B) (rows : list A) :
  (forall r, read_only (f r)) -> read_only (for_each f rows).
Proof.
  intros Hf. induction rows as [|r rows IH]; cbn [for_each]; [apply read_only_ret|].
  apply read_only_bind; [apply Hf|]. intros y.
  apply read_only_bind; [exact IH|]. intros ys. apply read_only_ret.
Qed.

Lemma read_only_CarOut_of (row : Car) : read_only (CarOut_of row).
Proof.
  unfold CarOut_of. destruct (CarBase_distance_ok _);
    [apply read_only_ret|apply read_only_raise].
Qed.

Lemma read_only_DriverOut_of (row : Driver) : read_only (DriverOut_of row).
Proof.
  unfold DriverOut_of. destruct (DriverBase_rating_ok _);
    [apply read_only_ret|apply read_only_raise].
Qed.

Lemma read_only_car_with_driver (row : Car * option Driver) :
  read_only (car_with_driver row).
Proof.
  destruct row as [c o]. unfold car_with_driver.
  apply read_only_bind; [apply read_only_CarOut_of|]. intros car_obj.
  destruct o as [d|]; [|apply read_only_ret].
  destruct (truthy (Some (d_id d))); [|apply read_only_ret].
  apply read_only_bind; [apply read_only_DriverOut_of|]. intros drv. apply read_only_ret.
Qed.

Lemma read_only_driver_with_car (row : Driver * option Car) :
  read_only (driver_with_car row).
Proof.
  destruct row as [d o]. unfold driver_with_car.
  apply read_only_bind; [apply read_only_DriverOut_of|]. intros driver_obj.
  destruct o as [c|]; [|apply read_only_ret].
  destruct (truthy (Some (c_id c))); [|apply read_only_ret].
  apply read_only_bind; [apply read_only_CarOut_of|]. intros c'. apply read_only_ret.
Qed.

(** Whatever the parameters and whatever the database holds, and whether
    they answer or fail, the six GET endpoints return the database they
    were given. *)
Theorem get_endpoints_read_only :
  read_only get_cars_in_repair
  /\ (forall car_id, read_only (get_car car_id))
  /\ (forall status min_distance max_distance limit offset,
        read_only (get_cars status min_distance max_distance limit offset))
  /\ (forall min_rating only_active limit offset,
        read_only (get_drivers min_rating only_active limit offset))
  /\ (forall driver_id, read_only (get_driver driver_id))
  /\ (forall threshold, read_only (get_drivers_low_rating threshold)).
Proof.
  repeat split.
  - apply read_only_get_db, read_only_bind; [apply read_only_fetch|].
    intros rows. apply read_only_for_each, read_only_CarOut_of.
  - intros car_id. unfold get_car. destruct (negb _); [apply read_only_raise|].
    apply read_only_get_db, read_only_bind; [apply read_only_fetch|].
    intros [r|]; [apply read_only_car_with_driver|apply read_only_raise].
  - intros status lo hi limit offset. unfold get_cars.
    destruct (negb _); [apply read_only_raise|].
    apply read_only_get_db, read_only_bind; [apply read_only_fetch|].
    intros rows. apply read_only_for_each, read_only_car_with_driver.
  - intros r a limit offset. unfold get_drivers.
    destruct (negb _); [apply read_only_raise|].
    apply read_only_get_db, read_only_bind; [apply read_only_fetch|].
    intros rows. apply read_only_for_each, read_only_driver_with_car.
  - intros driver_id. unfold get_driver. destruct (negb _); [apply read_only_raise|].
    apply read_only_get_db, read_only_bind; [apply read_only_fetch|].
    intros [r|]; [apply read_only_driver_with_car|apply read_only_raise].
  - intros threshold. unfold get_drivers_low_rating.
    destruct (negb _); [apply read_only_raise|].
    apply read_only_get_db, read_only_bind; [apply read_only_fetch|].
    intros rows. apply read_only_for_each, read_only_DriverOut_of.
Qed.

Lemma request_rolled_back {A} (valid : bool) (body : DB A) (db : Database) :
  (exists e, fst ((if negb valid then raise RequestValidationError else get_db body) db)
             = inl e) ->
  snd ((if negb valid then raise RequestValidationError else get_db body) db) = db.
Proof.
  destruct valid; cbn [negb]; [|reflexivity].
  intros [e He]. now apply (get_db_rollback body db e).
Qed.

(** A write request that is answered with an error, of whatever kind, has
    changed nothing: the database after it is the database before it. *)
Theorem failed_request_changes_nothing (r : Request) (db : Database) :
  failed r db = true -> serve r db = db.
Proof.
  destruct r; cbn [failed serve]; intros H.
  - unfold create_car in *. apply request_rolled_back.
    destruct (fst _) as [e|]; [now exists e|discriminate].
  - unfold update_car in *. apply request_rolled_back.
    destruct (fst _) as [e|]; [now exists e|discriminate].
  - unfold create_driver in *. apply request_rolled_back.
    destruct (fst _) as [e|]; [now exists e|discriminate].
  - unfold update_driver in *. apply request_rolled_back.
    destruct (fst _) as [e|]; [now exists e|discriminate].
Qed.

Lemma failed_request_changes_nothing_witness :
  failed (PATCH_drivers 2 take_toyota) seeded = true
  /\ serve (PATCH_drivers 2 take_toyota) seeded = seeded.
Proof.
  assert (failed (PATCH_drivers 2 take_toyota) seeded = true) as H.
  { cbn [failed]. rewrite seeded_tables. vm_compute. reflexivity. }
  split; [exact H|]. exact (failed_request_changes_nothing _ _ H).
Defined.


(** ** What holds in every reachable state *)

Lemma NoDup_map_injective {A B} (f : A -> B) (l : list A) (x y : A) :
  NoDup (map f l) -> In x l -> In y l -> f x = f y -> x = y.
Proof.
  induction l as [|a l IH]; simpl; intros Hnd Hx Hy E; [contradiction|].
  inversion Hnd as [|? ? Hnotin Hnd']; subst.
  destruct Hx as [->|Hx], Hy as [->|Hy].
  - reflexivity.
  - exfalso. apply Hnotin. rewrite E. now apply in_map.
  - exfalso. apply Hnotin. rewrite <- E. now apply in_map.
  - now apply IH.
Qed.

(** In every state a deployment can reach, an identifier, a license plate,
    a phone number and a car reference each name at most one row, every
    distance is above 0 and every rating within [0,5]. *)
Theorem reachable_rows_are_unique (db : Database) :
  reachable db ->
  (forall a b, In a (cars db) -> In b (cars db) ->
     c_id a = c_id b \/ c_license_plate a = c_license_plate b -> a = b)
  /\ (forall a b, In a (drivers db) -> In b (drivers db) ->
        d_id a = d_id b \/ d_phone a = d_phone b
        \/ (exists v, d_car_id a = Some v /\ d_car_id b = Some v) -> a = b)
  /\ (forall c, In c (cars db) -> PrimFloat.ltb 0 (c_distance c) = true)
  /\ (forall d, In d (drivers db) ->
        PrimFloat.leb 0 (d_rating d) = true /\ PrimFloat.leb (d_rating d) 5 = true).
Proof.
  intros Hreach. pose proof (reachable_consistent db Hreach) as Hdb.
  split; [|split; [|split]].
  - intros a b Ha Hb [E|E].
    + apply (NoDup_map_injective c_id (cars db)); auto.
      apply StronglySorted_lt_NoDup, (cars_rowids db Hdb).
    + apply (NoDup_map_injective c_license_plate (cars db)); auto.
      apply (cars_plates db Hdb).
  - intros a b Ha Hb [E|[E|(v & Ea & Eb)]].
    + apply (NoDup_map_injective d_id (drivers db)); auto.
      apply StronglySorted_lt_NoDup, (drivers_rowids db Hdb).
    + apply (NoDup_map_injective d_phone (drivers db)); auto.
      apply (drivers_phones db Hdb).
    + apply (assigned_unique (drivers db) a b v); auto.
      apply (drivers_car_ids db Hdb).
  - intros c Hc. apply (car_distance_ok db c Hdb Hc).
  - intros d Hd. pose proof (driver_rating_ok db d Hdb Hd) as H.
    unfold DriverBase_rating_ok, ge, le in H. now apply andb_prop in H.
Qed.

Lemma off_duty_reachable : reachable off_duty.
Proof. apply reachable_serve, reachable_fresh. Qed.

Lemma reachable_rows_are_unique_witness :
  reachable off_duty
  /\ (forall c, In c (cars off_duty) -> PrimFloat.ltb 0 (c_distance c) = true).
Proof.
  split; [exact off_duty_reachable|].
  exact (proj1 (proj2 (proj2 (reachable_rows_are_unique off_duty off_duty_reachable)))).
Defined.


(** ** Creating a car *)

(** The row a creation inserts. *)
Lemma create_car_success (now : datetime) (car : CarCreate.t) (db : Database) :
  CarCreate.valid car = true ->
  (forall c, In c (cars db) -> c_license_plate c <> CarCreate.license_plate car) ->
  create_car now car db
  = (inr (mkCar (next_rowid (map c_id (cars db)) (cars_seq db)) (CarCreate.status car)
            (CarCreate.license_plate car) (CarCreate.brand car) (CarCreate.color car)
            (CarCreate.distance car) now),
     mkDatabase
       (cars db ++
        [mkCar (next_rowid (map c_id (cars db)) (cars_seq db)) (CarCreate.status car)
           (CarCreate.license_plate car) (CarCreate.brand car) (CarCreate.color car)
           (CarCreate.distance car) now])
       (next_rowid (map c_id (cars db)) (cars_seq db)) (drivers db) (drivers_seq db)).
Proof.
  intros Hvalid Hplate.
  unfold create_car. rewrite Hvalid. cbn [negb].
  unfold get_db, try_except_IntegrityError, bind, insert_car.
  replace (existsb _ (cars db)) with false.
  2:{ symmetry. apply existsb_false. intros c Hc. apply String.eqb_neq.
      now apply Hplate. }
  unfold select_car, fetch. cbn [cars].
  match goal with |- context [find _ (cars db ++ [?r])] =>
    rewrite (select_inserted_car (cars db) (cars_seq db) r eq_refl) end.
  unfold from_row, CarOut_of. cbn [c_distance c_id].
  unfold CarCreate.valid in Hvalid. now rewrite Hvalid.
Qed.

(** A valid creation with a license plate no car carries yet is answered
    with the new row: the fields of the request, the time of the request,
    and an identifier above every identifier in use or used before.  The row
    is appended to [cars]; [drivers] is as before. *)
Theorem create_car_appends_row (now : datetime) (car : CarCreate.t) (db : Database) :
  CarCreate.valid car = true ->
  (forall c, In c (cars db) -> c_license_plate c <> CarCreate.license_plate car) ->
  exists row,
    create_car now car db
    = (inr row, mkDatabase (cars db ++ [row]) (c_id row) (drivers db) (drivers_seq db))
    /\ row = mkCar (c_id row) (CarCreate.status car) (CarCreate.license_plate car)
               (CarCreate.brand car) (CarCreate.color car) (CarCreate.distance car) now
    /\ cars_seq db < c_id row
    /\ (forall c, In c (cars db) -> c_id c < c_id row).
Proof.
  intros Hvalid Hplate.
  exists (mkCar (next_rowid (map c_id (cars db)) (cars_seq db)) (CarCreate.status car)
            (CarCreate.license_plate car) (CarCreate.brand car) (CarCreate.color car)
            (CarCreate.distance car) now).
  split; [|split; [|split]].
  - apply (create_car_success now car db Hvalid Hplate).
  - reflexivity.
  - cbn [c_id]. apply next_rowid_above_seq.
  - intros c Hc. cbn [c_id]. apply next_rowid_above. now apply in_map.
Qed.

Lemma create_car_appends_row_witness :
  exists row,
    create_car midnight (taken_in 1) seeded
    = (inr row, mkDatabase (cars seeded ++ [row]) (c_id row) (drivers seeded)
                  (drivers_seq seeded))
    /\ c_id row = 8.
Proof.
  destruct (create_car_appends_row midnight (taken_in 1) seeded eq_refl)
    as (row & Hcreate & Hrow & _).
  - intros c Hc. rewrite seeded_tables in Hc. cbn [cars seeded_cars In] in Hc.
    repeat (destruct Hc as [<-|Hc]; [vm_compute; discriminate|]). contradiction.
  - exists row. split; [exact Hcreate|].
    assert (fst (create_car midnight (taken_in 1) seeded) = inr row) as E
      by now rewrite Hcreate.
    rewrite seeded_tables in E. vm_compute in E. injection E as <-. reflexivity.
Defined.

(** ** Detail of a car *)

Lemma find_left_join {A B} (p : A -> bool) (on : A -> B -> bool)
    (l : list A) (r : list B) :
  find (fun row => p (fst row)) (left_join on l r)
  = option_map (fun a => (a, find (on a) r)) (find p l).
Proof.
  unfold left_join. induction l as [|a l IH]; [reflexivity|].
  cbn [flat_map find].
  assert (forall rest,
            find (fun row => p (fst row))
              (match filter (on a) r with
               | [] => [(a, None)]
               | ms => map (fun b => (a, Some b)) ms
               end ++ rest)
            = if p a then Some (a, find (on a) r)
              else find (fun row => p (fst row)) rest) as Hgroup.
  { intros rest.
    assert (find (on a) r = hd_error (filter (on a) r)) as Hhd.
    { clear. induction r as [|b r IH]; simpl; [reflexivity|].
      destruct (on a b); [reflexivity|exact IH]. }
    rewrite Hhd. destruct (p a) eqn:Hp.
    - destruct (filter (on a) r) as [|m ms]; cbn [map app find fst hd_error];
        now rewrite Hp.
    - assert (forall ms, find (fun row => p (fst row))
                           (map (fun b => (a, Some b)) ms ++ rest)
                         = find (fun row => p (fst row)) rest) as Hskip.
      { induction ms as [|m ms IHms]; cbn [map app find fst]; [reflexivity|].
        now rewrite Hp. }
      destruct (filter (on a) r) as [|m ms]; [|apply Hskip].
      cbn [app find fst]. now rewrite Hp. }
  rewrite Hgroup, IH. destruct (p a); reflexivity.
Qed.


Lemma driver_id_nonzero (db : Database) (d : Driver) :
  consistent db -> In d (drivers db) -> truthy (Some (d_id d)) = true.
Proof.
  intros Hdb Hd. pose proof (drivers_rowids_range db Hdb) as Hr.
  rewrite Forall_forall in Hr. specialize (Hr d Hd).
  unfold truthy. apply negb_true_iff, Z.eqb_neq. lia.
Qed.

Lemma car_id_nonzero (db : Database) (c : Car) :
  consistent db -> In c (cars db) -> truthy (Some (c_id c)) = true.
Proof.
  intros Hdb Hc. unfold truthy. apply negb_true_iff, Z.eqb_neq.
  now apply (car_id_positive db).
Qed.

(** The detail of an existing car. *)
Lemma get_car_detail (db : Database) (c : Car) :
  consistent db -> In c (cars db) ->
  get_car (c_id c) db = (inr (mkCarWithDriver c (driver_of db c)), db).
Proof.
  intros Hdb Hc. unfold get_car.
  replace (1 <=? c_id c) with true.
  2:{ symmetry. apply Z.leb_le. pose proof (cars_rowids_range db Hdb) as Hr.
      rewrite Forall_forall in Hr. specialize (Hr c Hc). lia. }
  cbn [negb]. unfold get_db, bind, fetch, cars_join_drivers.
  rewrite (find_left_join (fun x => c_id x =? c_id c)).
  rewrite (select_car_row db c Hdb Hc). cbn [option_map].
  rewrite car_with_driver_total; cbn [fst snd].
  - unfold CarWithDriver_of, driver_of. cbn [fst snd].
    destruct (find (car_id_is (c_id c)) (drivers db)) as [d|] eqn:E; [|reflexivity].
    apply find_some in E as [Hd _]. now rewrite (driver_id_nonzero db d Hdb Hd).
  - now apply (car_distance_ok db).
  - intros d E. apply find_some in E as [Hd _]. now apply (driver_rating_ok db).
Qed.

(** On a consistent database the detail of an existing car is the stored
    row together with the driver whose reference names it, if there is one;
    the nested driver's [car_id] is the car's identifier. *)
Theorem get_car_shows_its_driver (db : Database) (c : Car) :
  consistent db -> In c (cars db) ->
  get_car (c_id c) db = (inr (mkCarWithDriver c (driver_of db c)), db)
  /\ (forall d, driver_of db c = Some d -> d_car_id d = Some (c_id c))
  /\ (driver_of db c = None <->
      forall d, In d (drivers db) -> d_car_id d <> Some (c_id c)).
Proof.
  intros Hdb Hc. split; [|split].
  - now apply get_car_detail.
  - unfold driver_of. intros d.
    destruct (find _ _); [|discriminate]. intros E. injection E as <-. reflexivity.
  - unfold driver_of. split.
    + destruct (find (car_id_is (c_id c)) (drivers db)) eqn:E; [discriminate|].
      intros _ d Hd Hv. pose proof (find_none _ _ E d Hd) as Hf.
      unfold car_id_is in Hf. rewrite Hv, Z.eqb_refl in Hf. discriminate.
    + intros H. rewrite find_absent; [reflexivity|].
      intros d Hd. unfold car_id_is. destruct (d_car_id d) as [w|] eqn:E; [|reflexivity].
      apply Z.eqb_neq. intros ->. now apply (H d Hd).
Qed.

Lemma get_car_shows_its_driver_witness :
  get_car 1 seeded
  = (inr (mkCarWithDriver toyota (Some ivanov)), seeded).
Proof.
  destruct (get_car_shows_its_driver seeded toyota seeded_consistent) as [H _].
  - rewrite seeded_tables. now left.
  - etransitivity; [exact H|].
    unfold driver_of. rewrite seeded_tables. reflexivity.
Defined.

(** The detail of an existing driver. *)
Lemma get_driver_detail (db : Database) (d : Driver) :
  consistent db -> In d (drivers db) ->
  get_driver (d_id d) db = (inr (mkDriverWithCar d (car_of db d)), db).
Proof.
  intros Hdb Hd. unfold get_driver.
  replace (1 <=? d_id d) with true.
  2:{ symmetry. apply Z.leb_le. pose proof (drivers_rowids_range db Hdb) as Hr.
      rewrite Forall_forall in Hr. specialize (Hr d Hd). lia. }
  cbn [negb]. unfold get_db, bind, fetch, drivers_join_cars.
  rewrite (find_left_join (fun x => d_id x =? d_id d)).
  rewrite (select_driver_row db d Hdb Hd). cbn [option_map].
  rewrite driver_with_car_total; cbn [fst snd].
  - unfold DriverWithCar_of, car_of. cbn [fst snd].
    destruct (find (fun c => car_id_is (c_id c) d) (cars db)) as [c|] eqn:E;
      [|reflexivity].
    apply find_some in E as [Hc _]. now rewrite (car_id_nonzero db c Hdb Hc).
  - now apply (driver_rating_ok db).
  - intros c E. apply find_some in E as [Hc _]. now apply (car_distance_ok db).
Qed.

(** On a consistent database the detail of an existing driver is the stored
    row together with the car its reference names; a driver without a
    reference, or with a reference that names no car, is shown without one. *)
Theorem get_driver_shows_its_car (db : Database) (d : Driver) :
  consistent db -> In d (drivers db) ->
  get_driver (d_id d) db = (inr (mkDriverWithCar d (car_of db d)), db)
  /\ (forall c, car_of db d = Some c -> In c (cars db) /\ d_car_id d = Some (c_id c))
  /\ (car_of db d = None <->
      forall c, In c (cars db) -> d_car_id d <> Some (c_id c)).
Proof.
  intros Hdb Hd. split; [|split].
  - now apply get_driver_detail.
  - unfold car_of. intros c E. apply find_some in E as [Hc Hf]. split; [exact Hc|].
    unfold car_id_is in Hf. destruct (d_car_id d); [|discriminate].
    apply Z.eqb_eq in Hf. now subst.
  - unfold car_of. split.
    + intros E c Hc Hv. pose proof (find_none _ _ E c Hc) as Hf. cbn beta in Hf.
      unfold car_id_is in Hf. rewrite Hv, Z.eqb_refl in Hf. discriminate.
    + intros H. rewrite find_absent; [reflexivity|].
      intros c Hc. unfold car_id_is. destruct (d_car_id d) as [w|] eqn:E; [|reflexivity].
      apply Z.eqb_neq. intros ->. now apply (H c Hc).
Qed.

Lemma get_driver_shows_its_car_witness :
  get_driver 1 seeded = (inr (mkDriverWithCar ivanov (Some toyota)), seeded).
Proof.
  destruct (get_driver_shows_its_car seeded ivanov seeded_consistent) as [H _].
  - rewrite seeded_tables. now left.
  - etransitivity; [exact H|].
    unfold car_of. rewrite seeded_tables. reflexivity.
Defined.


(** ** Identifiers that name no row *)



(** ** Updating a car *)

Lemma set_car_fields_patched (u : CarUpdate.t) (c : Car) :
  fold_left set_CarField
    (field_of status_eq (CarUpdate.status u)
     ++ field_of color_eq (CarUpdate.color u)
     ++ field_of distance_eq (CarUpdate.distance u)) c
  = patched_car u c.
Proof.
  unfold patched_car. destruct c, (CarUpdate.status u), (CarUpdate.color u),
    (CarUpdate.distance u); reflexivity.
Qed.

Lemma replace_row_same {A} (key : A -> Z) (l : list A) (x : A) :
  NoDup (map key l) -> In x l -> replace_row key (key x) x l = l.
Proof.
  intros Hnd Hx. unfold replace_row. rewrite <- (map_id l) at 2.
  apply map_ext_in. intros y Hy. destruct (key y =? key x) eqn:E; [|reflexivity].
  apply Z.eqb_eq in E. symmetry. now apply (key_injective key l).
Qed.

Lemma map_replace_row {A} (key : A -> Z) (f : A -> A) (l : list A) (x : A) :
  NoDup (map key l) -> In x l ->
  map (fun y => if key y =? key x then f y else y) l = replace_row key (key x) (f x) l.
Proof.
  intros Hnd Hx. unfold replace_row. apply map_ext_in. intros y Hy.
  destruct (key y =? key x) eqn:E; [|reflexivity].
  apply Z.eqb_eq in E. f_equal. now apply (key_injective key l).
Qed.

(** On a consistent database a valid update of an existing car is answered
    with the row in which exactly the supplied fields have their new values;
    that row takes the place of the old one, and every other car, every
    driver and both counters stay as they are.  Identifier, license plate,
    brand and creation time are never changed. *)
Theorem update_car_patches_row (db : Database) (c : Car) (car_update : CarUpdate.t) :
  consistent db -> In c (cars db) -> CarUpdate.valid car_update = true ->
  update_car (c_id c) car_update db
  = (inr (patched_car car_update c),
     mkDatabase (replace_row c_id (c_id c) (patched_car car_update c) (cars db))
       (cars_seq db) (drivers db) (drivers_seq db)).
Proof.
  intros Hdb Hc Hvalid.
  pose proof (StronglySorted_lt_NoDup _ (cars_rowids db Hdb)) as Hkeys.
  unfold update_car. rewrite Hvalid. cbn [negb].
  unfold get_db, bind, select_car, fetch.
  rewrite (select_car_row db c Hdb Hc).
  pose proof (set_car_fields_patched car_update c) as Hpatch.
  destruct (field_of status_eq (CarUpdate.status car_update)
            ++ field_of color_eq (CarUpdate.color car_update)
            ++ field_of distance_eq (CarUpdate.distance car_update))
    as [|f fs] eqn:Hfields.
  - cbn [fold_left] in Hpatch. rewrite <- Hpatch.
    rewrite (select_car_row db c Hdb Hc). unfold from_row, CarOut_of.
    rewrite (car_distance_ok db c Hdb Hc). unfold ret.
    rewrite (replace_row_same c_id (cars db) c Hkeys Hc). now destruct db.
  - unfold update_cars. cbn [cars cars_seq drivers drivers_seq].
    rewrite (map_replace_row c_id (fold_left set_CarField (f :: fs)) (cars db) c Hkeys Hc).
    rewrite Hpatch.
    rewrite (find_replaced c_id (c_id c) (cars db) c (patched_car car_update c)
               (select_car_row db c Hdb Hc) eq_refl).
    unfold from_row, CarOut_of.
    replace (CarBase_distance_ok (c_distance (patched_car car_update c))) with true;
      [reflexivity|].
    symmetry. unfold patched_car. cbn [c_distance]. unfold CarUpdate.valid in Hvalid.
    destruct (CarUpdate.distance car_update); [exact Hvalid|].
    now apply (car_distance_ok db).
Qed.

Lemma update_car_patches_row_witness :
  fst (update_car 1 (CarUpdate.make (Some REPAIR) None None) seeded)
  = inr (mkCar 1 REPAIR "А123БВ777" "Toyota" "Белый" 5.3%float midnight).
Proof.
  change (update_car 1) with (update_car (c_id toyota)).
  rewrite (update_car_patches_row seeded toyota (CarUpdate.make (Some REPAIR) None None)
             seeded_consistent).
  - reflexivity.
  - rewrite seeded_tables. now left.
  - reflexivity.
Defined.


(** ** Updating a driver *)

Lemma set_driver_fields_patched (u : DriverUpdate.t) (d : Driver) :
  DriverUpdate.car_id u <> Some 0 ->
  fold_left set_DriverField (driver_fields u) d = patched_driver u d.
Proof.
  intros Hcar. unfold patched_driver, driver_fields.
  destruct (DriverUpdate.car_id u) as [v|].
  - replace (v =? 0) with false by (symmetry; apply Z.eqb_neq; congruence).
    destruct d, (DriverUpdate.full_name u), (DriverUpdate.phone u),
      (DriverUpdate.rating u), (DriverUpdate.is_active u); reflexivity.
  - destruct d, (DriverUpdate.full_name u), (DriverUpdate.phone u),
      (DriverUpdate.rating u), (DriverUpdate.is_active u); reflexivity.
Qed.

Lemma patched_driver_unassign (u : DriverUpdate.t) (d : Driver) :
  DriverUpdate.car_id u = Some 0 ->
  patched_driver (DriverUpdate.set_car_id u None) d = patched_driver u d.
Proof. intros H. unfold patched_driver. rewrite H. reflexivity. Qed.

(** The first block of [update_driver] when the car it is given is free. *)
Lemma check_new_car_passes (db : Database) (d : Driver) (u : DriverUpdate.t) :
  (forall v, DriverUpdate.car_id u = Some v -> v <> 0 ->
     (exists c, In c (cars db) /\ c_id c = v)
     /\ (forall x, In x (drivers db) -> d_car_id x = Some v -> x = d)) ->
  exists u',
    check_new_car (d_id d) u db = (inr u', db)
    /\ fold_left set_DriverField (driver_fields u') d = patched_driver u d.
Proof.
  intros Hcar. unfold check_new_car.
  destruct (DriverUpdate.car_id u) as [v|] eqn:Hv.
  - destruct (v =? 0) eqn:Hz.
    + apply Z.eqb_eq in Hz. subst v. eexists. split; [reflexivity|].
      rewrite set_driver_fields_patched by (cbn; discriminate).
      now apply patched_driver_unassign.
    + apply Z.eqb_neq in Hz. destruct (Hcar v eq_refl Hz) as [(c & Hc & Hid) Hfree].
      unfold bind, select_car, fetch.
      destruct (find_present (fun x => c_id x =? v) (cars db) c Hc) as [c' ->];
        [now apply Z.eqb_eq|].
      rewrite find_absent.
      * exists u. split; [reflexivity|]. apply set_driver_fields_patched.
        rewrite Hv. congruence.
      * intros x Hx. destruct (car_id_is v x) eqn:E; [|reflexivity]. cbn [andb].
        unfold car_id_is in E. destruct (d_car_id x) as [w|] eqn:Hw; [|discriminate].
        apply Z.eqb_eq in E. subst w. rewrite (Hfree x Hx Hw).
        now rewrite Z.eqb_refl.
  - exists u. split; [reflexivity|]. apply set_driver_fields_patched.
    rewrite Hv. discriminate.
Qed.





(** ** Creating a driver *)

(** The two look-ups at the head of [create_driver] when the car is there
    and free, or no car is named. *)
Lemma create_driver_checks_pass (db : Database) (car_id : option Z) :
  (forall v, car_id = Some v -> v <> 0 -> exists c, In c (cars db) /\ c_id c = v) ->
  (forall v, car_id = Some v -> forall x, In x (drivers db) -> d_car_id x <> Some v) ->
  (if truthy car_id then
     match car_id with
     | Some v =>
         found <- select_car v ;;
         match found with
         | None => raise (HTTPException 400 car_id_missing)
         | Some _ =>
             holder <- fetch (fun db => find (car_id_is v) (drivers db)) ;;
             match holder with
             | Some _ => raise (HTTPException 400 car_taken)
             | None => ret tt
             end
         end
     | None => ret tt
     end
   else ret tt) db = (inr tt, db).
Proof.
  intros Hexists Hfree. destruct car_id as [v|]; [|reflexivity].
  unfold truthy. destruct (v =? 0) eqn:Hz; [reflexivity|]. cbn [negb].
  apply Z.eqb_neq in Hz. destruct (Hexists v eq_refl Hz) as (c & Hc & Hid).
  unfold bind, select_car, fetch.
  destruct (find_present (fun x => c_id x =? v) (cars db) c Hc) as [c' ->];
    [now apply Z.eqb_eq|].
  rewrite find_absent; [reflexivity|].
  intros x Hx. unfold car_id_is. destruct (d_car_id x) as [w|] eqn:Hw; [|reflexivity].
  apply Z.eqb_neq. intros ->. now apply (Hfree v eq_refl x Hx).
Qed.

(** The row a creation inserts. *)
Lemma create_driver_success (now : datetime) (driver : DriverCreate.t) (db : Database) :
  DriverCreate.valid driver = true ->
  (forall x, In x (drivers db) -> d_phone x <> DriverCreate.phone driver) ->
  (forall v, DriverCreate.car_id driver = Some v -> v <> 0 ->
     exists c, In c (cars db) /\ c_id c = v) ->
  (forall v, DriverCreate.car_id driver = Some v ->
     forall x, In x (drivers db) -> d_car_id x <> Some v) ->
  create_driver now driver db
  = (inr (mkDriver (next_rowid (map d_id (drivers db)) (drivers_seq db))
            (DriverCreate.full_name driver) (DriverCreate.phone driver)
            (DriverCreate.rating driver) (DriverCreate.car_id driver) true now),
     mkDatabase (cars db) (cars_seq db)
       (drivers db ++
        [mkDriver (next_rowid (map d_id (drivers db)) (drivers_seq db))
           (DriverCreate.full_name driver) (DriverCreate.phone driver)
           (DriverCreate.rating driver) (DriverCreate.car_id driver) true now])
       (next_rowid (map d_id (drivers db)) (drivers_seq db))).
Proof.
  intros Hvalid Hphone Hexists Hfree.
  unfold create_driver. rewrite Hvalid. cbn [negb].
  unfold get_db. unfold bind at 1.
  rewrite (create_driver_checks_pass db _ Hexists Hfree).
  unfold try_except_IntegrityError, bind, insert_driver.
  unfold DriverCreate.valid in Hvalid. rewrite Hvalid. cbn [negb].
  replace (match DriverCreate.car_id driver with
           | Some v => existsb (car_id_is v) (drivers db)
           | None => false
           end) with false.
  2:{ symmetry. destruct (DriverCreate.car_id driver) as [v|]; [|reflexivity].
      apply existsb_false. intros x Hx. unfold car_id_is.
      destruct (d_car_id x) as [w|] eqn:Hw; [|reflexivity].
      apply Z.eqb_neq. intros ->. now apply (Hfree v eq_refl x Hx). }
  replace (existsb _ (drivers db)) with false.
  2:{ symmetry. apply existsb_false. intros x Hx. apply String.eqb_neq.
      now apply Hphone. }
  unfold select_driver, fetch. cbn [drivers].
  match goal with |- context [find _ (drivers db ++ [?r])] =>
    rewrite (select_inserted_driver (drivers db) (drivers_seq db) r eq_refl) end.
  unfold from_row, DriverOut_of. cbn [d_rating d_id]. now rewrite Hvalid.
Qed.




(** ** Requests that are refused *)



(** A phone number that a driver already has is refused with 400: on a
    creation that passes the car checks with "phone exists", on a valid
    update of another driver that passes the car checks with "uniqueness
    broken".  The database is unchanged. *)
Theorem duplicate_phone_is_refused (db : Database) (other : Driver) :
  consistent db -> In other (drivers db) ->
  (forall now driver,
     DriverCreate.valid driver = true ->
     DriverCreate.phone driver = d_phone other ->
     (forall v, DriverCreate.car_id driver = Some v -> v <> 0 ->
        exists c, In c (cars db) /\ c_id c = v) ->
     (forall v, DriverCreate.car_id driver = Some v ->
        forall x, In x (drivers db) -> d_car_id x <> Some v) ->
     create_driver now driver db = (inl (HTTPException 400 phone_exists), db))
  /\ (forall d driver_update,
        In d (drivers db) -> d <> other ->
        DriverUpdate.valid driver_update = true ->
        DriverUpdate.phone driver_update = Some (d_phone other) ->
        (forall v, DriverUpdate.car_id driver_update = Some v -> v <> 0 ->
           (exists c, In c (cars db) /\ c_id c = v)
           /\ (forall x, In x (drivers db) -> d_car_id x = Some v -> x = d)) ->
        update_driver (d_id d) driver_update db
        = (inl (HTTPException 400 uniqueness_broken), db)).
Proof.
  intros Hdb Hother. split.
  - intros now driver Hvalid Hphone Hexists Hfree.
    unfold create_driver. rewrite Hvalid. cbn [negb].
    unfold get_db. unfold bind at 1.
    rewrite (create_driver_checks_pass db _ Hexists Hfree).
    unfold try_except_IntegrityError, bind, insert_driver.
    unfold DriverCreate.valid in Hvalid. rewrite Hvalid. cbn [negb].
    replace (match DriverCreate.car_id driver with
             | Some v => existsb (car_id_is v) (drivers db)
             | None => false
             end) with false.
    2:{ symmetry. destruct (DriverCreate.car_id driver) as [v|]; [|reflexivity].
        apply existsb_false. intros x Hx. unfold car_id_is.
        destruct (d_car_id x) as [w|] eqn:Hw; [|reflexivity].
        apply Z.eqb_neq. intros ->. now apply (Hfree v eq_refl x Hx). }
    replace (existsb _ (drivers db)) with true; [reflexivity|].
    symmetry. apply existsb_exists. exists other. split; [exact Hother|].
    apply String.eqb_eq. congruence.
  - intros d u Hd Hne Hvalid Hphone Hcar.
    pose proof (select_driver_row db d Hdb Hd) as Hfind.
    unfold update_driver. rewrite Hvalid. cbn [negb].
    unfold get_db. unfold bind at 1. unfold select_driver at 1, fetch at 1. rewrite Hfind.
    unfold bind at 1.
    destruct (check_new_car_passes db d u Hcar) as (u' & -> & Hpatch).
    assert (d_phone (patched_driver u d) = d_phone other) as Hp
      by (unfold patched_driver; cbn [d_phone]; now rewrite Hphone).
    destruct (driver_fields u') as [|f fs] eqn:Hfields.
    { exfalso. cbn [fold_left] in Hpatch. rewrite <- Hpatch in Hp. apply Hne.
      apply (NoDup_map_injective d_phone (drivers db)); auto.
      apply (drivers_phones db Hdb). }
    unfold bind, try_except_IntegrityError, update_drivers. rewrite Hfind, Hpatch.
    destruct (negb (DriverBase_rating_ok _)); [reflexivity|].
    destruct (match d_car_id (patched_driver u d) with
              | Some v => _
              | None => false
              end); [reflexivity|].
    replace (existsb _ _) with true; [reflexivity|].
    symmetry. apply existsb_exists. exists other. split.
    + apply filter_In. split; [exact Hother|]. apply negb_true_iff, Z.eqb_neq.
      intros E. apply Hne. symmetry. now apply (driver_id_injective db).
    + apply String.eqb_eq. now rewrite Hp.
Qed.

Lemma duplicate_phone_is_refused_witness :
  create_driver midnight (DriverCreate.make "Новиков Олег" "+79001234567" 5%float None)
    seeded
  = (inl (HTTPException 400 phone_exists), seeded)
  /\ update_driver 2 (DriverUpdate.make None (Some "+79001234567") None None None) seeded
     = (inl (HTTPException 400 uniqueness_broken), seeded).
Proof.
  assert (In ivanov (drivers seeded)) as Hin by (rewrite seeded_tables; left; reflexivity).
  destruct (duplicate_phone_is_refused seeded ivanov seeded_consistent Hin)
    as [Hcreate Hupdate].
  split.
  - apply Hcreate; [reflexivity|reflexivity| |]; intros v E; discriminate E.
  - apply (Hupdate petrov).
    + rewrite seeded_tables. right. left. reflexivity.
    + discriminate.
    + reflexivity.
    + reflexivity.
    + intros v E. discriminate E.
Defined.


(** ** References to cars *)

Lemma preserves_read_only {A} (I : Database -> Prop) (m : DB A) :
  read_only m -> preserves I m.
Proof. intros Hm db H. now rewrite Hm. Qed.

Lemma preserves_bind {A B} (I : Database -> Prop) (m : DB A) (k : A -> DB B) :
  preserves I m -> (forall a, preserves I (k a)) -> preserves I (bind m k).
Proof.
  intros Hm Hk db H. unfold bind. specialize (Hm db H).
  destruct (m db) as [[e|a] db']; cbn [snd] in *; [exact Hm|]. now apply Hk.
Qed.

Lemma preserves_try_except {A} (I : Database -> Prop) (body : DB A)
    (handler : Constraint -> DB A) :
  preserves I body -> (forall c, preserves I (handler c)) ->
  preserves I (try_except_IntegrityError body handler).
Proof.
  intros Hb Hh db H. unfold try_except_IntegrityError. specialize (Hb db H).
  destruct (body db) as [[e|a] db']; cbn [snd] in *; [|exact Hb].
  destruct e; cbn [snd]; try exact Hb. now apply Hh.
Qed.

Lemma get_db_state {A} (body : DB A) (db : Database) :
  snd (get_db body db) = db \/ snd (get_db body db) = snd (body db).
Proof. unfold get_db. destruct (body db) as [[e|a] conn]; cbn [snd]; auto. Qed.

Lemma insert_car_referential (now : datetime) (status : CarStatus)
    (license_plate brand color : string) (distance : float) :
  preserves referential (insert_car now status license_plate brand color distance).
Proof.
  intros db H. unfold insert_car. destruct (existsb _ (cars db)); [exact H|].
  cbn [snd]. intros d v Hd Hv. cbn [drivers cars] in *.
  destruct (H d v Hd Hv) as [->|(c & Hc & Hid)]; [now left|].
  right. exists c. split; [|exact Hid]. apply in_or_app. now left.
Qed.

Lemma update_cars_referential (fields : list CarField) (car_id : Z) :
  preserves referential (update_cars fields car_id).
Proof.
  intros db H. unfold update_cars. cbn [snd]. intros d v Hd Hv. cbn [drivers cars] in *.
  destruct (H d v Hd Hv) as [->|(c & Hc & Hid)]; [now left|].
  right. eexists. split; [apply in_map, Hc|]. cbn beta.
  destruct (c_id c =? car_id); [now rewrite set_car_fields_id|exact Hid].
Qed.

Lemma insert_driver_referential (now : datetime) (full_name phone : string)
    (rating : float) (car_id : option Z) (db : Database) :
  referential db ->
  (forall v, car_id = Some v -> v <> 0 -> exists c, In c (cars db) /\ c_id c = v) ->
  referential (snd (insert_driver now full_name phone rating car_id db)).
Proof.
  intros H Hcar. unfold insert_driver.
  destruct (negb _); [exact H|]. destruct (match car_id with Some _ => _ | None => _ end);
    [exact H|].
  destruct (existsb _ (drivers db)); [exact H|].
  cbn [snd]. intros d v Hd Hv. cbn [drivers cars] in *.
  apply in_app_or in Hd as [Hd|[<-|[]]]; [now apply (H d v)|].
  cbn [d_car_id] in Hv. destruct (Z.eq_dec v 0) as [->|Hz]; [now left|].
  right. now apply Hcar.
Qed.

Lemma set_driver_fields_car_id (fields : list DriverField) (d : Driver) (v : Z) :
  d_car_id (fold_left set_DriverField fields d) = Some v ->
  In (car_id_eq v) fields \/ d_car_id d = Some v.
Proof.
  revert d. induction fields as [|f fs IH]; intros d H; [now right|].
  cbn [fold_left] in H. destruct (IH _ H) as [Hin|Hd]; [left; now right|].
  destruct f; cbn [set_DriverField d_car_id] in Hd; try (now right).
  injection Hd as ->. left. now left.
Qed.

Lemma update_drivers_referential (fields : list DriverField) (driver_id : Z)
    (db : Database) :
  referential db ->
  (forall v, In (car_id_eq v) fields -> v <> 0 ->
     exists c, In c (cars db) /\ c_id c = v) ->
  referential (snd (update_drivers fields driver_id db)).
Proof.
  intros H Hcar. unfold update_drivers.
  destruct (find _ (drivers db)) as [old|] eqn:Hfind; [|exact H].
  destruct (negb _); [exact H|].
  destruct (match d_car_id _ with Some _ => _ | None => _ end); [exact H|].
  destruct (existsb _ _); [exact H|].
  cbn [snd]. intros d v Hd Hv. cbn [drivers cars] in *.
  apply in_replace_row in Hd as [->|[Hd _]]; [|now apply (H d v)].
  apply set_driver_fields_car_id in Hv as [Hin|Hold].
  - destruct (Z.eq_dec v 0) as [->|Hz]; [now left|]. right. now apply Hcar.
  - apply find_some in Hfind as [Hin _]. now apply (H old v).
Qed.

Lemma car_id_field (u : DriverUpdate.t) (v : Z) :
  In (car_id_eq v) (driver_fields u) -> DriverUpdate.car_id u = Some v.
Proof.
  unfold driver_fields.
  destruct (DriverUpdate.full_name u), (DriverUpdate.phone u), (DriverUpdate.rating u),
    (DriverUpdate.car_id u), (DriverUpdate.is_active u); cbn [field_of app In];
    intros H; repeat (destruct H as [H|H]; [try discriminate H; now injection H as ->|]);
    contradiction.
Qed.

(** The first block of [update_driver] reads only, and a request object it
    lets through names a car that exists, or none. *)
Lemma check_new_car_outcome (driver_id : Z) (u : DriverUpdate.t) (db : Database) :
  snd (check_new_car driver_id u db) = db
  /\ (forall u', fst (check_new_car driver_id u db) = inr u' ->
      forall v, DriverUpdate.car_id u' = Some v -> v <> 0 ->
        exists c, In c (cars db) /\ c_id c = v).
Proof.
  unfold check_new_car. destruct (DriverUpdate.car_id u) as [w|] eqn:Hw.
  - destruct (w =? 0) eqn:Hz.
    + split; [reflexivity|]. cbn [fst ret]. intros u' E. injection E as <-.
      cbn. discriminate.
    + unfold bind, select_car, fetch.
      destruct (find (fun c => c_id c =? w) (cars db)) as [c|] eqn:Hc;
        [|split; [reflexivity|discriminate]].
      destruct (find _ (drivers db)); [split; [reflexivity|discriminate]|].
      split; [reflexivity|]. cbn [fst ret]. intros u' E. injection E as <-.
      intros v Hv _. rewrite Hw in Hv. injection Hv as <-.
      apply find_some in Hc as [Hc Hid]. exists c. split; [exact Hc|].
      now apply Z.eqb_eq.
  - split; [reflexivity|]. cbn [fst ret]. intros u' E. injection E as <-.
    intros v Hv. rewrite Hw in Hv. discriminate.
Qed.


Lemma bind_state {A B} (m : DB A) (k : A -> DB B) (db : Database) :
  (forall a, read_only (k a)) -> snd (bind m k db) = snd (m db).
Proof.
  intros Hk. unfold bind. destruct (m db) as [[e|a] db']; cbn [snd]; [reflexivity|].
  apply Hk.
Qed.

Lemma try_except_state {A} (body : DB A) (handler : Constraint -> DB A) (db : Database) :
  (forall c, read_only (handler c)) ->
  snd (try_except_IntegrityError body handler db) = snd (body db).
Proof.
  intros Hh. unfold try_except_IntegrityError.
  destruct (body db) as [[e|a] db']; cbn [snd]; [|reflexivity].
  destruct e; cbn [snd]; try reflexivity. apply Hh.
Qed.

Ltac read_only_tac :=
  repeat first
    [ apply read_only_ret | apply read_only_raise | apply read_only_fetch
    | apply read_only_CarOut_of | apply read_only_DriverOut_of
    | apply read_only_bind; [|intros ?]
    | match goal with |- read_only (from_row _ ?x) => destruct x; cbn [from_row] end
    | match goal with |- read_only (if ?x then _ else _) => destruct x end ].

Lemma create_driver_checks_outcome (db : Database) (car_id : option Z) :
  let checks :=
    if truthy car_id then
      match car_id with
      | Some v =>
          found <- select_car v ;;
          match found with
          | None => raise (HTTPException 400 car_id_missing)
          | Some _ =>
              holder <- fetch (fun db => find (car_id_is v) (drivers db)) ;;
              match holder with
              | Some _ => raise (HTTPException 400 car_taken)
              | None => ret tt
              end
          end
      | None => ret tt
      end
    else ret tt in
  snd (checks db) = db
  /\ (forall t, fst (checks db) = inr t ->
      forall v, car_id = Some v -> v <> 0 -> exists c, In c (cars db) /\ c_id c = v).
Proof.
  cbv zeta. destruct car_id as [w|]; [|split; [reflexivity|discriminate]].
  unfold truthy. destruct (w =? 0) eqn:Hz; cbn [negb].
  - split; [reflexivity|]. intros _ _ v E Hv. injection E as <-.
    apply Z.eqb_eq in Hz. contradiction.
  - unfold bind, select_car, fetch.
    destruct (find (fun c => c_id c =? w) (cars db)) as [c|] eqn:Hc;
      [|split; [reflexivity|discriminate]].
    destruct (find _ (drivers db)); [split; [reflexivity|discriminate]|].
    split; [reflexivity|]. intros _ _ v E _. injection E as <-.
    apply find_some in Hc as [Hc Hid]. exists c. split; [exact Hc|].
    now apply Z.eqb_eq.
Qed.

Lemma create_car_referential (now : datetime) (car : CarCreate.t) :
  preserves referential (create_car now car).
Proof.
  intros db H. unfold create_car. destruct (negb _); [exact H|].
  destruct (get_db_state
              (try_except_IntegrityError
                 (car_id <- insert_car now (CarCreate.status car)
                              (CarCreate.license_plate car) (CarCreate.brand car)
                              (CarCreate.color car) (CarCreate.distance car) ;;
                  new_car <- select_car car_id ;; from_row CarOut_of new_car)
                 (fun _ => raise (HTTPException 400 plate_exists))) db) as [-> | ->];
    [exact H|].
  rewrite try_except_state by (intros c; apply read_only_raise).
  rewrite bind_state.
  - now apply insert_car_referential.
  - intros a. unfold select_car. read_only_tac.
Qed.

Lemma update_car_referential (car_id : Z) (car_update : CarUpdate.t) :
  preserves referential (update_car car_id car_update).
Proof.
  intros db H. unfold update_car. destruct (negb _); [exact H|].
  match goal with |- referential (snd (get_db ?body db)) =>
    destruct (get_db_state body db) as [-> | ->]; [exact H|] end.
  unfold bind at 1. unfold select_car at 1, fetch at 1.
  destruct (find _ (cars db)); [|exact H].
  destruct (_ ++ _) as [|f fs].
  - rewrite bind_state; [exact H|]. intros a. read_only_tac.
  - rewrite bind_state.
    + now apply update_cars_referential.
    + intros _. unfold select_car. read_only_tac.
Qed.

Lemma create_driver_referential (now : datetime) (driver : DriverCreate.t) :
  preserves referential (create_driver now driver).
Proof.
  intros db H. unfold create_driver. destruct (negb _); [exact H|].
  match goal with |- referential (snd (get_db ?body db)) =>
    destruct (get_db_state body db) as [-> | ->]; [exact H|] end.
  pose proof (create_driver_checks_outcome db (DriverCreate.car_id driver)) as Hchecks.
  cbv zeta in Hchecks. unfold bind at 1.
  match type of Hchecks with snd (?checks db) = db /\ _ =>
    destruct (checks db) as [[e|t] db'] eqn:E end;
    cbn [fst snd] in Hchecks; destruct Hchecks as [-> Hcar]; [exact H|].
  rewrite try_except_state.
  2:{ intros c. read_only_tac. }
  rewrite bind_state.
  - apply insert_driver_referential; [exact H|]. apply (Hcar t eq_refl).
  - intros a. unfold select_driver. read_only_tac.
Qed.

Lemma update_driver_referential (driver_id : Z) (driver_update : DriverUpdate.t) :
  preserves referential (update_driver driver_id driver_update).
Proof.
  intros db H. unfold update_driver. destruct (negb _); [exact H|].
  match goal with |- referential (snd (get_db ?body db)) =>
    destruct (get_db_state body db) as [-> | ->]; [exact H|] end.
  unfold bind at 1. unfold select_driver at 1, fetch at 1.
  destruct (find _ (drivers db)); [|exact H].
  destruct (check_new_car_outcome driver_id driver_update db) as [Hstate Hcar].
  unfold bind at 1.
  destruct (check_new_car driver_id driver_update db) as [[e|u'] db'] eqn:E;
    cbn [fst snd] in Hstate, Hcar; subst db'; [exact H|].
  destruct (driver_fields u') as [|f fs] eqn:Hfields.
  - rewrite bind_state; [exact H|]. intros a. read_only_tac.
  - rewrite bind_state.
    2:{ intros _. unfold select_driver. read_only_tac. }
    rewrite try_except_state by (intros c; apply read_only_raise).
    apply update_drivers_referential; [exact H|].
    intros v Hin Hv. apply (Hcar u' eq_refl v); [|exact Hv].
    apply car_id_field. now rewrite Hfields.
Qed.

Lemma serve_referential (r : Request) (db : Database) :
  referential db -> referential (serve r db).
Proof.
  destruct r; cbn [serve].
  - apply create_car_referential.
  - apply update_car_referential.
  - apply create_driver_referential.
  - apply update_driver_referential.
Qed.

Lemma fresh_referential (now : datetime) : referential (fresh now).
Proof.
  intros d v Hd Hv. right.
  assert (forallb (fun d => match d_car_id d with
                            | Some v => existsb (fun c => c_id c =? v) (cars (fresh now))
                            | None => true
                            end) (drivers (fresh now)) = true) as H
    by (vm_compute; reflexivity).
  rewrite forallb_forall in H. specialize (H d Hd). rewrite Hv in H.
  apply existsb_exists in H as (c & Hc & Hid). exists c. split; [exact Hc|].
  apply Z.eqb_eq. exact Hid.
Qed.

Lemma reachable_referential (db : Database) : reachable db -> referential db.
Proof.
  induction 1 as [now|r db _ IH]; [apply fresh_referential|now apply serve_referential].
Qed.

(** In every state a deployment can reach, the car reference of a driver is
    NULL, the number 0, or the identifier of an existing car; and no car has
    the identifier 0, so a reference of 0 names no car. *)
Theorem reachable_references (db : Database) (d : Driver) (v : Z) :
  reachable db -> In d (drivers db) -> d_car_id d = Some v ->
  (v = 0 /\ forall c, In c (cars db) -> c_id c <> 0)
  \/ (v <> 0 /\ exists c, In c (cars db) /\ c_id c = v).
Proof.
  intros Hreach Hd Hv. pose proof (reachable_consistent db Hreach) as Hdb.
  destruct (Z.eq_dec v 0) as [->|Hz].
  - left. split; [reflexivity|]. intros c Hc. now apply (car_id_positive db).
  - right. split; [exact Hz|].
    destruct (reachable_referential db Hreach d v Hd Hv) as [->|H]; [contradiction|exact H].
Qed.

Lemma reachable_references_witness :
  reachable off_duty
  /\ ((1 = 0 /\ forall c, In c (cars off_duty) -> c_id c <> 0)
      \/ (1 <> 0 /\ exists c, In c (cars off_duty) /\ c_id c = 1)).
Proof.
  split; [exact off_duty_reachable|].
  apply (reachable_references off_duty ivanov_inactive 1 off_duty_reachable).
  - vm_compute. left. reflexivity.
  - reflexivity.
Defined.


(** ** Listings *)

Lemma find_hd_filter {A} (f : A -> bool) (l : list A) :
  find f l = hd_error (filter f l).
Proof.
  induction l as [|a l IH]; simpl; [reflexivity|]. destruct (f a); [reflexivity|exact IH].
Qed.

(** A join whose condition matches at most one row pairs every left row
    with the row it finds. *)
Lemma left_join_find {A B} (on : A -> B -> bool) (l : list A) (r : list B) :
  (forall a, In a l -> (List.length (filter (on a) r) <= 1)%nat) ->
  left_join on l r = map (fun a => (a, find (on a) r)) l.
Proof.
  unfold left_join. induction l as [|a l IH]; intros H; [reflexivity|].
  cbn [flat_map]. rewrite IH by (intros x Hx; apply H; now right).
  specialize (H a (or_introl eq_refl)). cbn [map]. rewrite find_hd_filter.
  destruct (filter (on a) r) as [|b [|b' ms]]; simpl in *; [reflexivity..|lia].
Qed.

Lemma cars_join_drivers_find (db : Database) :
  consistent db ->
  cars_join_drivers db = map (fun c => (c, find (car_id_is (c_id c)) (drivers db))) (cars db).
Proof.
  intros Hdb. unfold cars_join_drivers. apply left_join_find. intros c _.
  pose proof (StronglySorted_lt_NoDup _ (drivers_rowids db Hdb)) as Hkeys.
  apply filter_at_most_one; [now apply NoDup_map_inv in Hkeys|].
  intros x y Hx Hy Fx Fy.
  apply (assigned_unique (drivers db) x y (c_id c)); auto.
  - apply (drivers_car_ids db Hdb).
  - unfold car_id_is in Fx. destruct (d_car_id x); [|discriminate].
    apply Z.eqb_eq in Fx. now subst.
  - unfold car_id_is in Fy. destruct (d_car_id y); [|discriminate].
    apply Z.eqb_eq in Fy. now subst.
Qed.

Lemma drivers_join_cars_find (db : Database) :
  consistent db ->
  drivers_join_cars db = map (fun d => (d, car_of db d)) (drivers db).
Proof.
  intros Hdb. unfold drivers_join_cars, car_of. apply left_join_find. intros d _.
  pose proof (StronglySorted_lt_NoDup _ (cars_rowids db Hdb)) as Hkeys.
  apply filter_at_most_one; [now apply NoDup_map_inv in Hkeys|].
  intros x y Hx Hy Fx Fy. apply (key_injective c_id (cars db)); auto.
  unfold car_id_is in *. destruct (d_car_id d); [|discriminate].
  apply Z.eqb_eq in Fx, Fy. congruence.
Qed.

(** The rows a listing fetches when the joined table is the left table with
    one looked-up row each. *)
Lemma page_of_join {A B} (key : A -> Z) (p : A -> bool) (g : A -> B)
    (limit offset : Z) (l : list A) :
  StronglySorted Z.lt (map key l) ->
  limit_offset limit offset
    (order_by (fun r => key (fst r))
       (filter (fun r => p (fst r)) (map (fun a => (a, g a)) l)))
  = map (fun a => (a, g a)) (limit_offset limit offset (filter p l)).
Proof.
  intros Hsorted.
  rewrite (filter_map_swap (fun r => p (fst r)) (fun a => (a, g a))). cbn [fst].
  rewrite order_by_sorted.
  - now rewrite limit_offset_map.
  - rewrite map_map. cbn [fst]. now apply StronglySorted_filter.
Qed.

(** The car listing on a consistent database. *)
Lemma get_cars_listing (db : Database) (status : option CarStatus)
    (min_distance max_distance : option float) (limit offset : Z) :
  consistent db ->
  match min_distance with Some m => ge 0 m | None => true end = true ->
  match max_distance with Some m => ge 0 m | None => true end = true ->
  1 <= limit <= 500 -> 0 <= offset ->
  get_cars status min_distance max_distance limit offset db
  = (inr (map (fun c => mkCarWithDriver c (driver_of db c))
            (limit_offset limit offset
               (filter (cars_where status min_distance max_distance) (cars db)))),
     db).
Proof.
  intros Hdb Hmin Hmax Hlimit Hoffset.
  unfold get_cars. rewrite Hmin, Hmax.
  replace (1 <=? limit) with true by (symmetry; apply Z.leb_le; lia).
  replace (limit <=? 500) with true by (symmetry; apply Z.leb_le; lia).
  replace (0 <=? offset) with true by (symmetry; apply Z.leb_le; lia).
  cbn [andb negb]. unfold get_db, bind, fetch.
  rewrite (cars_join_drivers_find db Hdb).
  rewrite (page_of_join c_id) by apply (cars_rowids db Hdb).
  set (page := limit_offset limit offset _).
  assert (forall c, In c page -> In c (cars db)) as Hpage.
  { intros c Hc. unfold page in Hc. apply in_limit_offset in Hc.
    now apply filter_In in Hc. }
  rewrite (for_each_total car_with_driver CarWithDriver_of).
  - rewrite map_map. do 2 f_equal. apply map_ext_in. intros c Hc.
    unfold CarWithDriver_of, driver_of. cbn [fst snd].
    destruct (find (car_id_is (c_id c)) (drivers db)) as [d|] eqn:E; [|reflexivity].
    apply find_some in E as [Hd _]. now rewrite (driver_id_nonzero db d Hdb Hd).
  - intros row Hrow. apply in_map_iff in Hrow as (c & <- & Hc).
    apply car_with_driver_total; cbn [fst snd].
    + apply (car_distance_ok db c Hdb). now apply Hpage.
    + intros d E. apply find_some in E as [Hd _]. now apply (driver_rating_ok db).
Qed.

(** The driver listing on a consistent database. *)
Lemma get_drivers_listing (db : Database) (min_rating : option float)
    (only_active : bool) (limit offset : Z) :
  consistent db ->
  match min_rating with Some m => ge 0 m && le 5 m | None => true end = true ->
  1 <= limit <= 500 -> 0 <= offset ->
  get_drivers min_rating only_active limit offset db
  = (inr (map (fun d => mkDriverWithCar d (car_of db d))
            (limit_offset limit offset
               (filter (drivers_where min_rating only_active) (drivers db)))),
     db).
Proof.
  intros Hdb Hmin Hlimit Hoffset.
  unfold get_drivers. rewrite Hmin.
  replace (1 <=? limit) with true by (symmetry; apply Z.leb_le; lia).
  replace (limit <=? 500) with true by (symmetry; apply Z.leb_le; lia).
  replace (0 <=? offset) with true by (symmetry; apply Z.leb_le; lia).
  cbn [andb negb]. unfold get_db, bind, fetch.
  rewrite (drivers_join_cars_find db Hdb).
  rewrite (page_of_join d_id) by apply (drivers_rowids db Hdb).
  set (page := limit_offset limit offset _).
  assert (forall d, In d page -> In d (drivers db)) as Hpage.
  { intros d Hd. unfold page in Hd. apply in_limit_offset in Hd.
    now apply filter_In in Hd. }
  rewrite (for_each_total driver_with_car DriverWithCar_of).
  - rewrite map_map. do 2 f_equal. apply map_ext_in. intros d Hd.
    unfold DriverWithCar_of. cbn [fst snd].
    destruct (car_of db d) as [c|] eqn:E; [|reflexivity].
    unfold car_of in E. apply find_some in E as [Hc _].
    now rewrite (car_id_nonzero db c Hdb Hc).
  - intros row Hrow. apply in_map_iff in Hrow as (d & <- & Hd).
    apply driver_with_car_total; cbn [fst snd].
    + apply (driver_rating_ok db d Hdb). now apply Hpage.
    + intros c E. unfold car_of in E. apply find_some in E as [Hc _].
      now apply (car_distance_ok db).
Qed.








(** On a consistent database every entry of a car listing is what the car
    detail answers for that car, and every entry of a driver listing is what
    the driver detail answers for that driver. *)
Theorem listing_agrees_with_detail (db : Database) :
  consistent db ->
  (forall status min_distance max_distance limit offset l,
     get_cars status min_distance max_distance limit offset db = (inr l, db) ->
     forall x, In x l -> get_car (c_id (cwd_car x)) db = (inr x, db))
  /\ (forall min_rating only_active limit offset l,
        get_drivers min_rating only_active limit offset db = (inr l, db) ->
        forall x, In x l -> get_driver (d_id (dwc_driver x)) db = (inr x, db)).
Proof.
  intros Hdb. split.
  - intros status lo hi limit offset l Hget x Hx.
    unfold get_cars in Hget.
    destruct (match lo with Some m => ge 0 m | None => true end) eqn:Hlo;
      [|discriminate Hget].
    destruct (match hi with Some m => ge 0 m | None => true end) eqn:Hhi;
      [|discriminate Hget].
    destruct (1 <=? limit) eqn:H1; [|discriminate Hget].
    destruct (limit <=? 500) eqn:H2; [|discriminate Hget].
    destruct (0 <=? offset) eqn:H3; [|discriminate Hget].
    apply Z.leb_le in H1, H2, H3.
    pose proof (get_cars_listing db status lo hi limit offset Hdb Hlo Hhi
                  (conj H1 H2) H3) as Hlist.
    unfold get_cars in Hlist. rewrite Hlo, Hhi in Hlist.
    replace (1 <=? limit) with true in * by (symmetry; apply Z.leb_le; lia).
    replace (limit <=? 500) with true in * by (symmetry; apply Z.leb_le; lia).
    replace (0 <=? offset) with true in * by (symmetry; apply Z.leb_le; lia).
    rewrite Hlist in Hget. injection Hget as <-.
    apply in_map_iff in Hx as (c & <- & Hc). cbn [cwd_car].
    apply get_car_detail; [exact Hdb|].
    apply in_limit_offset in Hc. now apply filter_In in Hc.
  - intros r a limit offset l Hget x Hx.
    unfold get_drivers in Hget.
    destruct (match r with Some m => ge 0 m && le 5 m | None => true end) eqn:Hr;
      [|discriminate Hget].
    destruct (1 <=? limit) eqn:H1; [|discriminate Hget].
    destruct (limit <=? 500) eqn:H2; [|discriminate Hget].
    destruct (0 <=? offset) eqn:H3; [|discriminate Hget].
    apply Z.leb_le in H1, H2, H3.
    pose proof (get_drivers_listing db r a limit offset Hdb Hr (conj H1 H2) H3) as Hlist.
    unfold get_drivers in Hlist. rewrite Hr in Hlist.
    replace (1 <=? limit) with true in * by (symmetry; apply Z.leb_le; lia).
    replace (limit <=? 500) with true in * by (symmetry; apply Z.leb_le; lia).
    replace (0 <=? offset) with true in * by (symmetry; apply Z.leb_le; lia).
    rewrite Hlist in Hget. injection Hget as <-.
    apply in_map_iff in Hx as (d & <- & Hd). cbn [dwc_driver].
    apply in_limit_offset in Hd. apply filter_In in Hd as [Hd _].
    apply get_driver_detail; assumption.
Qed.

Lemma listing_agrees_with_detail_witness :
  consistent seeded
  /\ (forall l, get_cars None None None 100 0 seeded = (inr l, seeded) ->
      forall x, In x l -> get_car (c_id (cwd_car x)) seeded = (inr x, seeded)).
Proof.
  split; [exact seeded_consistent|].
  exact (proj1 (listing_agrees_with_detail seeded seeded_consistent) None None None 100 0).
Defined.




(** ** Comparing floats *)







(** ** Drivers with a low rating *)








(** ** A new car, a driver for it, and its detail *)

(** In every reachable state: a valid creation of a car with an unused
    plate, then a valid creation of a driver with an unused phone that names
    the identifier just returned, then the detail of that car, all succeed,
    and the detail shows the new driver nested under the new car. *)
Theorem new_car_with_driver_shows_in_detail (db : Database)
    (now : datetime) (car : CarCreate.t)
    (later : datetime) (full_name phone : string) (rating : float) :
  reachable db ->
  CarCreate.valid car = true ->
  (forall c, In c (cars db) -> c_license_plate c <> CarCreate.license_plate car) ->
  DriverBase_rating_ok rating = true ->
  (forall x, In x (drivers db) -> d_phone x <> phone) ->
  exists c d db1 db2,
    create_car now car db = (inr c, db1)
    /\ create_driver later (DriverCreate.make full_name phone rating (Some (c_id c))) db1
       = (inr d, db2)
    /\ get_car (c_id c) db2 = (inr (mkCarWithDriver c (Some d)), db2)
    /\ c_status c = CarCreate.status car
    /\ d_car_id d = Some (c_id c) /\ d_is_active d = true.
Proof.
  intros Hreach Hvalid Hplate Hrating Hphone.
  pose proof (reachable_consistent db Hreach) as Hdb.
  pose proof (reachable_referential db Hreach) as Href.
  pose proof (create_car_success now car db Hvalid Hplate) as Hcar.
  set (id := next_rowid (map c_id (cars db)) (cars_seq db)) in *.
  set (c := mkCar id (CarCreate.status car) (CarCreate.license_plate car)
              (CarCreate.brand car) (CarCreate.color car) (CarCreate.distance car) now)
    in *.
  set (db1 := mkDatabase (cars db ++ [c]) id (drivers db) (drivers_seq db)) in *.
  assert (consistent db1) as Hdb1.
  { pose proof (serve_consistent (POST_cars now car) db Hdb) as H.
    cbn [serve] in H. now rewrite Hcar in H. }
  assert (forall x, In x (drivers db) -> d_car_id x <> Some id) as Hfree.
  { intros x Hx E. destruct (Href x id Hx E) as [Hz|(c' & Hc' & Hid)].
    - pose proof (next_rowid_positive (map c_id (cars db)) (cars_seq db)). unfold id in Hz.
      lia.
    - pose proof (next_rowid_above (map c_id (cars db)) (cars_seq db) (c_id c')
                    (in_map c_id _ _ Hc')). unfold id in Hid. lia. }
  pose proof (create_driver_success later
                (DriverCreate.make full_name phone rating (Some id)) db1) as Hdriver.
  cbn [DriverCreate.valid DriverCreate.rating DriverCreate.phone DriverCreate.car_id
       DriverCreate.full_name] in Hdriver.
  specialize (Hdriver Hrating Hphone).
  assert (In c (cars db1)) as Hc by (apply in_or_app; right; left; reflexivity).
  assert (forall v, Some id = Some v -> v <> 0 ->
            exists c0, In c0 (cars db1) /\ c_id c0 = v) as Hexists.
  { intros v E _. injection E as <-. exists c. split; [exact Hc|reflexivity]. }
  assert (forall v, Some id = Some v ->
            forall x, In x (drivers db1) -> d_car_id x <> Some v) as Hfree1.
  { intros v E x Hx. injection E as <-. now apply Hfree. }
  specialize (Hdriver Hexists Hfree1).
  set (d := mkDriver (next_rowid (map d_id (drivers db1)) (drivers_seq db1))
              full_name phone rating (Some id) true later) in *.
  set (db2 := mkDatabase (cars db1) (cars_seq db1) (drivers db1 ++ [d])
                (next_rowid (map d_id (drivers db1)) (drivers_seq db1))) in *.
  assert (consistent db2) as Hdb2.
  { pose proof (serve_consistent
                  (POST_drivers later (DriverCreate.make full_name phone rating (Some id)))
                  db1 Hdb1) as H.
    cbn [serve] in H. now rewrite Hdriver in H. }
  exists c, d, db1, db2. split; [exact Hcar|]. split; [exact Hdriver|].
  split; [|repeat split].
  change id with (c_id c). rewrite (get_car_detail db2 c Hdb2 Hc).
  do 3 f_equal. unfold driver_of. cbn [drivers db2 db1 c_id c].
  rewrite find_app_last.
  - reflexivity.
  - intros y Hy. unfold car_id_is. destruct (d_car_id y) as [w|] eqn:E; [|reflexivity].
    apply Z.eqb_neq. intros ->. now apply (Hfree y Hy).
  - unfold car_id_is. cbn [d_car_id d]. apply Z.eqb_refl.
Qed.

Lemma new_car_with_driver_shows_in_detail_witness :
  exists c d db1 db2,
    create_car midnight (CarCreate.make "X1" "Toyota" "Red" 1%float FREE) seeded
    = (inr c, db1)
    /\ create_driver midnight
         (DriverCreate.make "Новиков Олег" "+79000000008" 5%float (Some (c_id c))) db1
       = (inr d, db2)
    /\ get_car (c_id c) db2 = (inr (mkCarWithDriver c (Some d)), db2)
    /\ c_id c = 8.
Proof.
  destruct (new_car_with_driver_shows_in_detail seeded midnight
              (CarCreate.make "X1" "Toyota" "Red" 1%float FREE)
              midnight "Новиков Олег" "+79000000008" 5%float)
    as (c & d & db1 & db2 & Hcar & Hdriver & Hget & _).
  - apply reachable_fresh.
  - reflexivity.
  - intros c Hc. rewrite seeded_tables in Hc. cbn [cars seeded_cars In] in Hc.
    repeat (destruct Hc as [<-|Hc]; [vm_compute; discriminate|]). contradiction.
  - reflexivity.
  - intros x Hx. rewrite seeded_tables in Hx. cbn [drivers seeded_drivers In] in Hx.
    repeat (destruct Hx as [<-|Hx]; [vm_compute; discriminate|]). contradiction.
  - exists c, d, db1, db2. split; [exact Hcar|]. split; [exact Hdriver|].
    split; [exact Hget|].
    assert (fst (create_car midnight (CarCreate.make "X1" "Toyota" "Red" 1%float FREE)
                   seeded) = inr c) as E by (rewrite Hcar; reflexivity).
    clear Hcar Hdriver Hget. rewrite seeded_tables in E. vm_compute in E.
    injection E as <-. reflexivity.
Defined.


(** ** Rows stay *)

(** What a write endpoint leaves behind is the database it found or the
    result of its one INSERT or UPDATE on it. *)
Lemma create_car_state (now : datetime) (car : CarCreate.t) (db : Database) :
  snd (create_car now car db) = db
  \/ snd (create_car now car db)
     = snd (insert_car now (CarCreate.status car) (CarCreate.license_plate car)
              (CarCreate.brand car) (CarCreate.color car) (CarCreate.distance car) db).
Proof.
  remember (snd (create_car now car db)) as s eqn:Hs.
  unfold create_car in Hs. destruct (negb _); [now left|].
  match type of Hs with s = snd (get_db ?body db) =>
    destruct (get_db_state body db) as [E|E]; rewrite E in Hs; clear E end;
    [now left|].
  right. rewrite try_except_state in Hs by (intros c; apply read_only_raise).
  rewrite bind_state in Hs; [exact Hs|]. intros a. unfold select_car. read_only_tac.
Qed.

Lemma update_car_state (car_id : Z) (car_update : CarUpdate.t) (db : Database) :
  snd (update_car car_id car_update db) = db
  \/ exists fields, snd (update_car car_id car_update db)
                    = snd (update_cars fields car_id db).
Proof.
  remember (snd (update_car car_id car_update db)) as s eqn:Hs.
  unfold update_car in Hs. destruct (negb _); [now left|].
  match type of Hs with s = snd (get_db ?body db) =>
    destruct (get_db_state body db) as [E|E]; rewrite E in Hs; clear E end;
    [now left|].
  unfold bind at 1 in Hs. unfold select_car at 1, fetch at 1 in Hs.
  destruct (find _ (cars db)); [|now left].
  destruct (_ ++ _) as [|f fs].
  - left. rewrite bind_state in Hs; [exact Hs|]. intros a. read_only_tac.
  - right. exists (f :: fs). rewrite bind_state in Hs; [exact Hs|].
    intros _. unfold select_car. read_only_tac.
Qed.

Lemma create_driver_state (now : datetime) (driver : DriverCreate.t) (db : Database) :
  snd (create_driver now driver db) = db
  \/ snd (create_driver now driver db)
     = snd (insert_driver now (DriverCreate.full_name driver) (DriverCreate.phone driver)
              (DriverCreate.rating driver) (DriverCreate.car_id driver) db).
Proof.
  remember (snd (create_driver now driver db)) as s eqn:Hs.
  unfold create_driver in Hs. destruct (negb _); [now left|].
  match type of Hs with s = snd (get_db ?body db) =>
    destruct (get_db_state body db) as [E|E]; rewrite E in Hs; clear E end;
    [now left|].
  pose proof (create_driver_checks_outcome db (DriverCreate.car_id driver)) as Hchecks.
  cbv zeta in Hchecks. unfold bind at 1 in Hs.
  match type of Hchecks with snd (?checks db) = db /\ _ =>
    destruct (checks db) as [[e|t] db'] eqn:E end;
    cbn [fst snd] in Hchecks; destruct Hchecks as [-> _]; [now left|].
  right. rewrite try_except_state in Hs by (intros c; read_only_tac).
  rewrite bind_state in Hs; [exact Hs|]. intros a. unfold select_driver. read_only_tac.
Qed.

Lemma update_driver_state (driver_id : Z) (driver_update : DriverUpdate.t)
    (db : Database) :
  snd (update_driver driver_id driver_update db) = db
  \/ exists fields, snd (update_driver driver_id driver_update db)
                    = snd (update_drivers fields driver_id db).
Proof.
  remember (snd (update_driver driver_id driver_update db)) as s eqn:Hs.
  unfold update_driver in Hs. destruct (negb _); [now left|].
  match type of Hs with s = snd (get_db ?body db) =>
    destruct (get_db_state body db) as [E|E]; rewrite E in Hs; clear E end;
    [now left|].
  unfold bind at 1 in Hs. unfold select_driver at 1, fetch at 1 in Hs.
  destruct (find _ (drivers db)); [|now left].
  destruct (check_new_car_outcome driver_id driver_update db) as [Hstate _].
  unfold bind at 1 in Hs.
  destruct (check_new_car driver_id driver_update db) as [[e|u'] db'];
    cbn [snd] in Hstate; subst db'; [now left|].
  destruct (driver_fields u') as [|f fs].
  - left. rewrite bind_state in Hs; [exact Hs|]. intros a. read_only_tac.
  - right. exists (f :: fs). rewrite bind_state in Hs.
    + rewrite try_except_state in Hs; [exact Hs|]. intros c. apply read_only_raise.
    + intros _. unfold select_driver. read_only_tac.
Qed.

Lemma set_car_fields_brand (fields : list CarField) (c : Car) :
  c_brand (fold_left set_CarField fields c) = c_brand c.
Proof.
  revert c. induction fields as [|f fs IH]; intros c; simpl; [reflexivity|].
  rewrite IH. now destruct f.
Qed.

Lemma set_car_fields_created_at (fields : list CarField) (c : Car) :
  c_created_at (fold_left set_CarField fields c) = c_created_at c.
Proof.
  revert c. induction fields as [|f fs IH]; intros c; simpl; [reflexivity|].
  rewrite IH. now destruct f.
Qed.

Lemma set_fields_created_at (fields : list DriverField) (d : Driver) :
  d_created_at (fold_left set_DriverField fields d) = d_created_at d.
Proof.
  revert d. induction fields as [|f fs IH]; intros d; simpl; [reflexivity|].
  rewrite IH. now destruct f.
Qed.

(** No request removes or reorders a row, or changes what a row never
    changes: after any request on a consistent database the cars are the
    cars of before, with identifier, license plate, brand and creation time
    as they were, followed by at most one new car, and the drivers are the
    drivers of before, with identifier and creation time as they were,
    followed by at most one new driver. *)
Theorem requests_keep_rows (r : Request) (db : Database) :
  consistent db ->
  exists new_cars new_drivers,
    map (fun c => (c_id c, c_license_plate c, c_brand c, c_created_at c))
      (cars (serve r db))
    = map (fun c => (c_id c, c_license_plate c, c_brand c, c_created_at c)) (cars db)
      ++ new_cars
    /\ map (fun d => (d_id d, d_created_at d)) (drivers (serve r db))
       = map (fun d => (d_id d, d_created_at d)) (drivers db) ++ new_drivers
    /\ (List.length new_cars + List.length new_drivers <= 1)%nat.
Proof.
  intros Hdb.
  assert (forall db', db' = db ->
            exists new_cars new_drivers,
              map (fun c => (c_id c, c_license_plate c, c_brand c, c_created_at c))
                (cars db')
              = map (fun c => (c_id c, c_license_plate c, c_brand c, c_created_at c))
                  (cars db) ++ new_cars
              /\ map (fun d => (d_id d, d_created_at d)) (drivers db')
                 = map (fun d => (d_id d, d_created_at d)) (drivers db) ++ new_drivers
              /\ (List.length new_cars + List.length new_drivers <= 1)%nat) as Hsame.
  { intros db' ->. exists [], []. rewrite !app_nil_r. cbn. auto. }
  destruct r as [now car|car_id car_update|now driver|driver_id driver_update];
    cbn [serve].
  - destruct (create_car_state now car db) as [E|E]; rewrite E; [now apply Hsame|].
    unfold insert_car. destruct (existsb _ (cars db)); [now apply Hsame|].
    cbn [snd cars drivers]. eexists [_], []. rewrite map_app, app_nil_r. cbn. auto.
  - destruct (update_car_state car_id car_update db) as [E|[fields E]]; rewrite E;
      [now apply Hsame|].
    unfold update_cars. cbn [snd cars drivers]. exists [], []. rewrite !app_nil_r.
    split; [|split; [reflexivity|cbn; lia]].
    rewrite map_map. apply map_ext. intros c. destruct (c_id c =? car_id); [|reflexivity].
    now rewrite set_car_fields_id, set_car_fields_plate, set_car_fields_brand,
      set_car_fields_created_at.
  - destruct (create_driver_state now driver db) as [E|E]; rewrite E; [now apply Hsame|].
    unfold insert_driver. destruct (negb _); [now apply Hsame|].
    destruct (match DriverCreate.car_id driver with Some _ => _ | None => _ end);
      [now apply Hsame|].
    destruct (existsb _ (drivers db)); [now apply Hsame|].
    cbn [snd cars drivers]. eexists [], [_]. rewrite map_app, app_nil_r. cbn. auto.
  - destruct (update_driver_state driver_id driver_update db) as [E|[fields E]];
      rewrite E; [now apply Hsame|].
    unfold update_drivers.
    destruct (find _ (drivers db)) as [old|] eqn:Hfind; [|now apply Hsame].
    destruct (negb _); [now apply Hsame|].
    destruct (match d_car_id _ with Some _ => _ | None => _ end); [now apply Hsame|].
    destruct (existsb _ _); [now apply Hsame|].
    cbn [snd cars drivers]. exists [], []. rewrite !app_nil_r.
    split; [reflexivity|split; [|cbn; lia]].
    unfold replace_row. rewrite map_map. apply map_ext_in. intros d Hd.
    destruct (d_id d =? driver_id) eqn:Hid; [|reflexivity].
    rewrite set_fields_id, set_fields_created_at.
    apply find_some in Hfind as [Hold Hoid]. apply Z.eqb_eq in Hid, Hoid.
    assert (d = old) as ->; [|reflexivity].
    apply (driver_id_injective db); auto. congruence.
Qed.

Lemma requests_keep_rows_witness :
  exists new_cars new_drivers,
    map (fun c => (c_id c, c_license_plate c, c_brand c, c_created_at c))
      (cars (serve (PATCH_drivers 1 deactivate) seeded))
    = map (fun c => (c_id c, c_license_plate c, c_brand c, c_created_at c)) (cars seeded)
      ++ new_cars
    /\ map (fun d => (d_id d, d_created_at d))
         (drivers (serve (PATCH_drivers 1 deactivate) seeded))
       = map (fun d => (d_id d, d_created_at d)) (drivers seeded) ++ new_drivers
    /\ (List.length new_cars + List.length new_drivers <= 1)%nat.
Proof. exact (requests_keep_rows (PATCH_drivers 1 deactivate) seeded seeded_consistent). Defined.

(** ** Starting again *)

Lemma serve_cars_length (r : Request) (db : Database) :
  (List.length (cars db) <= List.length (cars (serve r db)))%nat.
Proof.
  destruct r as [now car|car_id car_update|now driver|driver_id driver_update];
    cbn [serve].
  - destruct (create_car_state now car db) as [E|E]; rewrite E; [reflexivity|].
    unfold insert_car. destruct (existsb _ (cars db)); [reflexivity|].
    cbn [snd cars]. rewrite length_app. lia.
  - destruct (update_car_state car_id car_update db) as [E|[fields E]]; rewrite E;
      [reflexivity|].
    unfold update_cars. cbn [snd cars]. now rewrite length_map.
  - destruct (create_driver_state now driver db) as [E|E]; rewrite E; [reflexivity|].
    unfold insert_driver. destruct (negb _); [reflexivity|].
    destruct (match DriverCreate.car_id driver with Some _ => _ | None => _ end);
      [reflexivity|].
    destruct (existsb _ (drivers db)); reflexivity.
  - destruct (update_driver_state driver_id driver_update db) as [E|[fields E]];
      rewrite E; [reflexivity|].
    unfold update_drivers. destruct (find _ (drivers db)); [|reflexivity].
    destruct (negb _); [reflexivity|].
    destruct (match d_car_id _ with Some _ => _ | None => _ end); [reflexivity|].
    destruct (existsb _ _); reflexivity.
Qed.

Lemma reachable_cars_length (db : Database) :
  reachable db -> (7 <= List.length (cars db))%nat.
Proof.
  induction 1 as [now|r db _ IH].
  - assert (List.length (cars (fresh now)) = 7%nat) as -> by (vm_compute; reflexivity).
    lia.
  - pose proof (serve_cars_length r db). lia.
Qed.

(** [init_db] runs at every start of the application.  In a reachable state
    it finds the seven seeded cars, or more, and inserts nothing: the
    database is the one it found. *)
Theorem restart_inserts_nothing (db : Database) (now : datetime) :
  reachable db -> init_db now db = (inr tt, db).
Proof.
  intros Hreach. pose proof (reachable_cars_length db Hreach) as Hlen.
  unfold init_db, get_db, bind, fetch.
  replace (Z.of_nat (List.length (cars db)) =? 0) with false; [reflexivity|].
  symmetry. apply Z.eqb_neq. lia.
Qed.

Lemma restart_inserts_nothing_witness :
  reachable off_duty /\ init_db midnight off_duty = (inr tt, off_duty).
Proof.
  split; [exact off_duty_reachable|].
  exact (restart_inserts_nothing off_duty midnight off_duty_reachable).
Defined.


(** ** Once assigned, always assigned *)

Lemma set_fields_keep_assignment (fields : list DriverField) (d : Driver) :
  d_car_id d <> None -> d_car_id (fold_left set_DriverField fields d) <> None.
Proof.
  revert d. induction fields as [|f fs IH]; intros d H; [exact H|].
  cbn [fold_left]. apply IH. destruct f; cbn [set_DriverField d_car_id]; try exact H.
  discriminate.
Qed.

(** No request can clear a car reference: a driver of a consistent database
    whose [car_id] is not NULL is, after any request whatever, still a driver
    with the same identifier whose [car_id] is not NULL. *)
Theorem assigned_driver_stays_assigned (r : Request) (db : Database) (d : Driver) :
  consistent db -> In d (drivers db) -> d_car_id d <> None ->
  exists d', In d' (drivers (serve r db)) /\ d_id d' = d_id d /\ d_car_id d' <> None.
Proof.
  intros Hdb Hd Hcar.
  assert (forall db', drivers db' = drivers db ->
            exists d', In d' (drivers db') /\ d_id d' = d_id d /\ d_car_id d' <> None)
    as Hsame.
  { intros db' E. exists d. rewrite E. auto. }
  destruct r as [now car|car_id car_update|now driver|driver_id driver_update];
    cbn [serve].
  - destruct (create_car_state now car db) as [E|E]; rewrite E; [now apply Hsame|].
    apply Hsame. unfold insert_car. now destruct (existsb _ (cars db)).
  - destruct (update_car_state car_id car_update db) as [E|[fields E]]; rewrite E;
      now apply Hsame.
  - destruct (create_driver_state now driver db) as [E|E]; rewrite E; [now apply Hsame|].
    unfold insert_driver. destruct (negb _); [now apply Hsame|].
    destruct (match DriverCreate.car_id driver with Some _ => _ | None => _ end);
      [now apply Hsame|].
    destruct (existsb _ (drivers db)); [now apply Hsame|].
    cbn [snd drivers]. exists d. split; [apply in_or_app; now left|auto].
  - destruct (update_driver_state driver_id driver_update db) as [E|[fields E]];
      rewrite E; [now apply Hsame|].
    unfold update_drivers.
    destruct (find _ (drivers db)) as [old|] eqn:Hfind; [|now apply Hsame].
    destruct (negb _); [now apply Hsame|].
    destruct (match d_car_id _ with Some _ => _ | None => _ end); [now apply Hsame|].
    destruct (existsb _ _); [now apply Hsame|].
    cbn [snd drivers]. destruct (d_id d =? driver_id) eqn:Hid.
    + exists (fold_left set_DriverField fields old).
      apply find_some in Hfind as [Hold Hoid]. apply Z.eqb_eq in Hid, Hoid.
      assert (d = old) as -> by (apply (driver_id_injective db); auto; congruence).
      split; [|split].
      * unfold replace_row. apply in_map_iff. exists old. split; [|exact Hold].
        now rewrite (proj2 (Z.eqb_eq _ _) Hoid).
      * apply set_fields_id.
      * now apply set_fields_keep_assignment.
    + exists d. split; [|auto]. unfold replace_row. apply in_map_iff. exists d.
      split; [now rewrite Hid|exact Hd].
Qed.

Lemma assigned_driver_stays_assigned_witness :
  exists d', In d' (drivers (serve (PATCH_drivers 1 unassign) seeded))
             /\ d_id d' = 1 /\ d_car_id d' <> None.
Proof.
  apply (assigned_driver_stays_assigned (PATCH_drivers 1 unassign) seeded ivanov
           seeded_consistent).
  - rewrite seeded_tables. left. reflexivity.
  - discriminate.
Defined.
